(** * The Tetris project: game loop, input arbitration and score counters

    A shallow embedding of [score.c] and of the game loop of [project.c]
    ([play_game], the joystick gates [is_left] .. [is_down],
    [convert_joystick], [update_seven_segment]), with the properties of the
    control core stated and proved over it.

    Integers are [Z] with the wrap-around of their C type written out.  The
    target is an AVR: [int] is 16 bits wide, [uint32_t] arithmetic is modulo
    [2^32]. *)

From Stdlib Require Import ZArith List Bool Lia Ascii Permutation.
Import ListNotations.
Open Scope Z_scope.

(** ** Machine integers *)

Definition uint8 (z : Z) : Z := z mod 2 ^ 8.
Definition uint16 (z : Z) : Z := z mod 2 ^ 16.
Definition uint32 (z : Z) : Z := z mod 2 ^ 32.

(** Conversion of a byte to (signed) [char]: values from 128 on become
    negative.  Every constant the loop compares a [char] with is below 128. *)
Definition to_char (c : Z) : Z := (c + 128) mod 2 ^ 8 - 128.

(** ** score.c *)

Module Score.

(** The two [static] variables of the module. *)
Record t := mk { score : Z; cleared_rows : Z }.


(** [score += value] on a [uint32_t]. *)
Definition add_to_score (value : Z) (s : t) : t :=
  mk (uint32 (score s + value)) (cleared_rows s).

Definition get_score (s : t) : Z := score s.

Definition init_cleared_rows (s : t) : t :=
  mk (score s) 0.

(** [if(cleared_rows < 99) cleared_rows++;] on a [uint8_t]. *)
Definition increment_cleared_rows (s : t) : t :=
  if cleared_rows s <? 99
  then mk (score s) (uint8 (cleared_rows s + 1))
  else s.

Definition get_cleared_rows (s : t) : Z := cleared_rows s.

(** [n] successive calls of [increment_cleared_rows]. *)
Fixpoint increments (n : nat) (s : t) : t :=
  match n with
  | O => s
  | S n' => increments n' (increment_cleared_rows s)
  end.

(** The calls another module can make to change the counters (the
    variables are [static], so there is no other way to reach them). *)
Inductive call := AddToScore (value : Z) | IncrementClearedRows.

Definition run_call (c : call) (s : t) : t :=
  match c with
  | AddToScore v => add_to_score (uint16 v) s
  | IncrementClearedRows => increment_cleared_rows s
  end.

Definition run_calls (cs : list call) (s : t) : t :=
  fold_left (fun acc c => run_call c acc) cs s.

End Score.

(** ** game.h: the board collaborator *)

(** The argument of [attempt_move]. *)
Inductive move := MOVE_LEFT | MOVE_RIGHT.

(** The interface of the game module as [play_game] uses it.  Every function
    returns whether the action was legal.  [fix_block_to_board_and_add_new_block]
    may clear rows; it reaches the score module only through that module's
    functions, so it also returns the calls it makes.  The falling block can
    descend finitely many rows only: [rows_below] bounds the number of drops
    that can still succeed. *)
Class Game (B : Type) := {
  attempt_move : move -> B -> bool * B;
  attempt_rotation : B -> bool * B;
  attempt_drop_block_one_row : B -> bool * B;
  fix_block_to_board_and_add_new_block : B -> (bool * list Score.call) * B;
  rows_below : B -> nat;
  drop_descends : forall b b',
    attempt_drop_block_one_row b = (true, b') ->
    (rows_below b' < rows_below b)%nat
}.

(** A call made to the game module, with its result. *)
Inductive board_call :=
| CallMove (m : move) (ok : bool)
| CallRotation (ok : bool)
| CallDrop (ok : bool)
| CallFix (ok : bool).

(** ** The environment of the loop *)

(** Modelled from the spec: the clock, the two input queues and the ADC, whose
    code (timer0.c, buttons.c, serialio.c and the converter hardware) is not
    part of the sources at hand.  The clock is a free-running millisecond
    counter advanced by an interrupt, so two reads may differ: [ticks k] is
    the value the [k]-th read returns and [reads] counts the reads made so
    far.  The button queue holds button numbers, the serial buffer holds
    bytes; [adc k] is the result of the [k]-th conversion. *)
Record hardware := mkHw {
  ticks : nat -> Z;
  reads : nat;
  button_queue : list Z;
  serial_buffer : list Z;
  adc : nat -> Z;
  conversions : nat;
  PORTC : Z
}.

(** The globals of project.c used by the joystick and the display. *)
Record joystick := mkJoy {
  joystick_time : Z;
  target_pin : Z;
  stick_x : Z;
  stick_y : Z
}.

(** The locals of [play_game] that live across iterations. *)
Record locals := mkLoc {
  last_drop_time : Z;
  characters_into_escape_sequence : Z;
  paused : bool;
  paused_time : Z
}.

Section Loop.

Context {B : Type} `{G : Game B}.

(** Everything one iteration can read or change.  [calls] records the calls
    made to the game module, oldest first. *)
Record state := mkState {
  hw : hardware;
  sc : Score.t;
  joy : joystick;
  seven_seg_cc : Z;
  loc : locals;
  board : B;
  calls : list board_call
}.

Definition set_hw (h : hardware) (s : state) : state :=
  mkState h (sc s) (joy s) (seven_seg_cc s) (loc s) (board s) (calls s).
Definition set_sc (c : Score.t) (s : state) : state :=
  mkState (hw s) c (joy s) (seven_seg_cc s) (loc s) (board s) (calls s).
Definition set_joy (j : joystick) (s : state) : state :=
  mkState (hw s) (sc s) j (seven_seg_cc s) (loc s) (board s) (calls s).
Definition set_loc (l : locals) (s : state) : state :=
  mkState (hw s) (sc s) (joy s) (seven_seg_cc s) l (board s) (calls s).
Definition set_board (b : B) (c : board_call) (s : state) : state :=
  mkState (hw s) (sc s) (joy s) (seven_seg_cc s) (loc s) b (calls s ++ [c]).

Definition set_joystick_time (t : Z) (s : state) : state :=
  set_joy (mkJoy t (target_pin (joy s)) (stick_x (joy s)) (stick_y (joy s))) s.
Definition set_last_drop_time (t : Z) (s : state) : state :=
  set_loc (mkLoc t (characters_into_escape_sequence (loc s))
                 (paused (loc s)) (paused_time (loc s))) s.
Definition set_characters_into_escape_sequence (n : Z) (s : state) : state :=
  set_loc (mkLoc (last_drop_time (loc s)) n
                 (paused (loc s)) (paused_time (loc s))) s.
Definition set_paused (p : bool) (s : state) : state :=
  set_loc (mkLoc (last_drop_time (loc s))
                 (characters_into_escape_sequence (loc s)) p
                 (paused_time (loc s))) s.
Definition set_paused_time (t : Z) (s : state) : state :=
  set_loc (mkLoc (last_drop_time (loc s))
                 (characters_into_escape_sequence (loc s))
                 (paused (loc s)) t) s.

(** *** Reads of the environment *)

(** Modelled from the spec: [get_clock_ticks] returns the current value of the
    millisecond counter. *)
Definition get_clock_ticks (s : state) : Z * state :=
  let h := hw s in
  (ticks h (reads h),
   set_hw (mkHw (ticks h) (S (reads h)) (button_queue h) (serial_buffer h)
                (adc h) (conversions h) (PORTC h)) s).

(** Modelled from the spec: [button_pushed] returns the next queued button
    and removes it from the queue, or -1 when no push is waiting. *)
Definition button_pushed (s : state) : Z * state :=
  let h := hw s in
  match button_queue h with
  | [] => (-1, s)
  | b :: rest =>
      (b, set_hw (mkHw (ticks h) (reads h) rest (serial_buffer h)
                       (adc h) (conversions h) (PORTC h)) s)
  end.

(** Modelled from the spec: [serial_input_available] tells whether a byte is
    waiting in the serial buffer. *)
Definition serial_input_available (s : state) : bool :=
  match serial_buffer (hw s) with [] => false | _ :: _ => true end.

(** Modelled from the spec: [fgetc(stdin)] takes the next byte out of the
    serial buffer (-1, the end-of-file value, when there is none). *)
Definition fgetc_stdin (s : state) : Z * state :=
  let h := hw s in
  match serial_buffer h with
  | [] => (-1, s)
  | c :: rest =>
      (c, set_hw (mkHw (ticks h) (reads h) (button_queue h) rest
                       (adc h) (conversions h) (PORTC h)) s)
  end.

(** *** Calls of the game module, recorded in [calls] *)

Definition do_attempt_move (m : move) (s : state) : bool * state :=
  let (ok, b) := attempt_move m (board s) in
  (ok, set_board b (CallMove m ok) s).

Definition do_attempt_rotation (s : state) : bool * state :=
  let (ok, b) := attempt_rotation (board s) in
  (ok, set_board b (CallRotation ok) s).

Definition do_attempt_drop_block_one_row (s : state) : bool * state :=
  let (ok, b) := attempt_drop_block_one_row (board s) in
  (ok, set_board b (CallDrop ok) s).

Definition do_fix_block_to_board_and_add_new_block (s : state) : bool * state :=
  let '(ok, cs, b) := fix_block_to_board_and_add_new_block (board s) in
  (ok, set_sc (Score.run_calls cs (sc s)) (set_board b (CallFix ok) s)).


(** *** project.c: display and joystick *)

Definition seven_seg_digits : list Z :=
  [63; 6; 91; 79; 102; 109; 125; 7; 127; 111].

Definition update_seven_segment (s : state) : state :=
  let cc := Z.lxor 1 (seven_seg_cc s) in
  let rows := Score.get_cleared_rows (sc s) in
  let out :=
    if cc =? 0
    then nth (Z.to_nat (rows mod 10)) seven_seg_digits 0
    else Z.lor (nth (Z.to_nat ((rows / 10) mod 10)) seven_seg_digits 0) 128 in
  let h := hw s in
  mkState (mkHw (ticks h) (reads h) (button_queue h) (serial_buffer h)
                (adc h) (conversions h) out)
          (sc s) (joy s) cc (loc s) (board s) (calls s).

(** One conversion per call, on alternating pins.  The result register is
    read once the converter reports completion; the wait itself is a matter
    of hardware timing and is not modelled. *)
Definition convert_joystick (s : state) : state :=
  let h := hw s in
  let j := joy s in
  let result := uint16 (adc h (conversions h)) in
  let j' :=
    if target_pin j =? 0
    then mkJoy (joystick_time j) 1 result (stick_y j)
    else mkJoy (joystick_time j) 0 (stick_x j) result in
  set_joy j'
    (set_hw (mkHw (ticks h) (reads h) (button_queue h) (serial_buffer h)
                  (adc h) (S (conversions h)) (PORTC h)) s).

(** The four gates.  [&&] evaluates its right operand, and with it reads the
    clock, only when the stick is beyond the threshold; the timestamp is
    taken by a second read of the clock.  The result 1/0 is given as a
    [bool]. *)
Definition is_left (s : state) : bool * state :=
  if 850 <? stick_x (joy s) then
    let (now, s1) := get_clock_ticks s in
    if uint32 (joystick_time (joy s1) + 150) <? now then
      let (now', s2) := get_clock_ticks s1 in
      (true, set_joystick_time now' s2)
    else (false, s1)
  else (false, s).

Definition is_right (s : state) : bool * state :=
  if stick_x (joy s) <? 150 then
    let (now, s1) := get_clock_ticks s in
    if uint32 (joystick_time (joy s1) + 150) <? now then
      let (now', s2) := get_clock_ticks s1 in
      (true, set_joystick_time now' s2)
    else (false, s1)
  else (false, s).

Definition is_up (s : state) : bool * state :=
  if 850 <? stick_y (joy s) then
    let (now, s1) := get_clock_ticks s in
    if uint32 (joystick_time (joy s1) + 300) <? now then
      let (now', s2) := get_clock_ticks s1 in
      (true, set_joystick_time now' s2)
    else (false, s1)
  else (false, s).

Definition is_down (s : state) : bool * state :=
  if stick_y (joy s) <? 150 then
    let (now, s1) := get_clock_ticks s in
    if uint32 (joystick_time (joy s1) + 150) <? now then
      let (now', s2) := get_clock_ticks s1 in
      (true, set_joystick_time now' s2)
    else (false, s1)
  else (false, s).

(** The shape the four gates share, for the proofs: [tilted] is the
    threshold test and [window] the debounce window. *)
Definition gate (tilted : bool) (window : Z) (s : state) : bool * state :=
  if tilted then
    let (now, s1) := get_clock_ticks s in
    if uint32 (joystick_time (joy s1) + window) <? now then
      let (now', s2) := get_clock_ticks s1 in
      (true, set_joystick_time now' s2)
    else (false, s1)
  else (false, s).

(** The value the next read of the clock returns. *)
Definition next_tick (s : state) : Z := ticks (hw s) (reads (hw s)).

(** The state after a gate has fired: the clock was read twice and the
    second value is the new timestamp. *)
Definition fired (s : state) : state :=
  let h := hw s in
  set_joystick_time (ticks h (S (reads h)))
    (set_hw (mkHw (ticks h) (S (S (reads h))) (button_queue h)
                  (serial_buffer h) (adc h) (conversions h) (PORTC h)) s).

(** The state after a gate was held back by its window: one read. *)
Definition held (s : state) : state := snd (get_clock_ticks s).

(** What it means for a gate [g] to be debounced with threshold test
    [tilted] and window [window] against the timestamp [joystick_time]: it
    fires, taking the timestamp from the clock, when the stick is tilted and
    the clock is past the timestamp by more than the window; it is held back,
    leaving the timestamp alone, when the clock is not yet at timestamp plus
    window; it does nothing when the stick is not tilted. *)
Definition debounced (g : state -> bool * state) (tilted : joystick -> bool)
    (window : Z) : Prop :=
  forall s,
    (tilted (joy s) = true ->
     uint32 (joystick_time (joy s) + window) < next_tick s ->
     g s = (true, fired s)) /\
    (tilted (joy s) = true ->
     next_tick s < uint32 (joystick_time (joy s) + window) ->
     g s = (false, held s)) /\
    (tilted (joy s) = false -> g s = (false, s)).

(** *** project.c: [play_game] *)

Definition chr (a : ascii) : Z := Z.of_nat (nat_of_ascii a).
Definition ESCAPE_CHAR : Z := 27.

(** What the input check of one iteration leaves in the three variables
    [button], [serial_input] and [escape_sequence_char]. *)
Record input := mkInput {
  button : Z;
  serial_input : Z;
  escape_sequence_char : Z
}.

(** Lines 200-219: one byte [c] through the escape-sequence decoder, [n]
    being [characters_into_escape_sequence].  The result is the new value of
    that counter and what is left in [serial_input] and
    [escape_sequence_char]. *)
Definition escape_sequence_step (n c : Z) : Z * Z * Z :=
  if (n =? 0) && (c =? ESCAPE_CHAR) then (uint8 (n + 1), -1, -1)
  else if (n =? 1) && (c =? chr "[") then (uint8 (n + 1), -1, -1)
  else if n =? 2 then (0, -1, c)
  else (0, c, -1).

(** Lines 190-221: poll the button queue, then, if no button was pushed, the
    serial buffer, and run the byte through the decoder. *)
Definition check_for_input (s : state) : input * state :=
  let (b, s) := button_pushed s in
  if b =? -1 then
    if serial_input_available s then
      let (c, s) := fgetc_stdin s in
      let '(n, serial, escape) :=
        escape_sequence_step (characters_into_escape_sequence (loc s))
                             (to_char c) in
      (mkInput b serial escape, set_characters_into_escape_sequence n s)
    else (mkInput b (-1) (-1), s)
  else (mkInput b (-1) (-1), s).

(** [c || f()]: the call is made only when [c] is false. *)
Definition or_else (c : bool) (f : state -> bool * state) (s : state)
  : bool * state :=
  if c then (true, s) else f s.

(** The four gates as a paused game evaluates them: every one in turn, none
    acted upon. *)
Definition poll_gates (i : input) (s : state) : state :=
  let s := snd (or_else ((button i =? 3) || (escape_sequence_char i =? chr "D"))
                        is_left s) in
  let s := snd (or_else ((button i =? 0) || (escape_sequence_char i =? chr "C"))
                        is_right s) in
  let s := snd (or_else ((button i =? 2) || (escape_sequence_char i =? chr "A"))
                        is_up s) in
  snd (or_else (escape_sequence_char i =? chr "B") is_down s).

(** How an iteration ends: the loop goes on, or [break] leaves it. *)
Inductive flow := Continue | GameOver.

(** [while(attempt_drop_block_one_row()) {}].  The loop is run for at most
    [fuel] attempts; [process_input] gives it more than [rows_below]. *)
Fixpoint drop_until_failure (fuel : nat) (s : state) : state :=
  match fuel with
  | O => s
  | S fuel' =>
      let (ok, s') := do_attempt_drop_block_one_row s in
      if ok then drop_until_failure fuel' s' else s'
  end.

(** The body shared by the soft drop (lines 235-241) and the timer-driven
    drop (lines 272-278): one drop attempt, fix and new block when it fails,
    then [last_drop_time = get_clock_ticks()]. *)
Definition drop_one_row_or_fix (s : state) : flow * state :=
  let (ok, s) := do_attempt_drop_block_one_row s in
  if ok then
    let (now, s) := get_clock_ticks s in
    (Continue, set_last_drop_time now s)
  else
    let (ok', s) := do_fix_block_to_board_and_add_new_block s in
    if ok' then
      let (now, s) := get_clock_ticks s in
      (Continue, set_last_drop_time now s)
    else (GameOver, s).

(** Lines 242-250: the drop from height. *)
Definition drop_from_height (s : state) : flow * state :=
  let s := drop_until_failure (S (rows_below (board s))) s in
  let (ok, s) := do_fix_block_to_board_and_add_new_block s in
  if ok then (Continue, s) else (GameOver, s).

(** Lines 252-264: the pause toggle. *)
Definition toggle_pause (s : state) : state :=
  if negb (paused (loc s)) then
    let (now, s) := get_clock_ticks s in
    set_paused_time now (set_paused true s)
  else
    let s := set_paused false s in
    let (now, s) := get_clock_ticks s in
    set_last_drop_time
      (uint32 (last_drop_time (loc s) + uint32 (now - paused_time (loc s)))) s.

(** Lines 224-264: the chain of [else if]s that acts on the input. *)
Definition process_input (i : input) (s : state) : flow * state :=
  let (c, s) :=
    or_else ((button i =? 3) || (escape_sequence_char i =? chr "D")) is_left s in
  if c && negb (paused (loc s)) then
    let (_, s) := do_attempt_move MOVE_LEFT s in (Continue, s)
  else
  let (c, s) :=
    or_else ((button i =? 0) || (escape_sequence_char i =? chr "C")) is_right s in
  if c && negb (paused (loc s)) then
    let (_, s) := do_attempt_move MOVE_RIGHT s in (Continue, s)
  else
  let (c, s) :=
    or_else ((button i =? 2) || (escape_sequence_char i =? chr "A")) is_up s in
  if c && negb (paused (loc s)) then
    let (_, s) := do_attempt_rotation s in (Continue, s)
  else
  let (c, s) := or_else (escape_sequence_char i =? chr "B") is_down s in
  if c && negb (paused (loc s)) then
    drop_one_row_or_fix s
  else if ((button i =? 1) || (serial_input i =? chr " "))
          && negb (paused (loc s)) then
    drop_from_height s
  else if (serial_input i =? chr "p") || (serial_input i =? chr "P") then
    (Continue, toggle_pause s)
  else (Continue, s).

(** The condition of line 269.  [600 - cleared_rows * 30] is computed in
    [int] (it lies between -7050 and 600, so 16 bits hold it), converted to
    [uint32_t] and added to [last_drop_time] modulo [2^32]. *)
Definition timer_drop_due (now ldt rows : Z) (p : bool) : bool :=
  (uint32 (ldt + (600 - rows * 30)) <=? now) && negb p.

(** Lines 268-279. *)
Definition timer_related_events (s : state) : flow * state :=
  let (now, s) := get_clock_ticks s in
  if timer_drop_due now (last_drop_time (loc s))
                    (Score.get_cleared_rows (sc s)) (paused (loc s))
  then drop_one_row_or_fix s
  else (Continue, s).

(** One pass through the body of [while(1)], lines 175-279. *)
Definition loop_body (s : state) : flow * state :=
  let s := update_seven_segment s in
  let s := convert_joystick s in
  let (i, s) := check_for_input s in
  match process_input i s with
  | (GameOver, s) => (GameOver, s)
  | (Continue, s) => timer_related_events s
  end.

(** The loop itself, for at most [n] passes. *)
Fixpoint game_loop (n : nat) (s : state) : flow * state :=
  match n with
  | O => (Continue, s)
  | S n' =>
      match loop_body s with
      | (GameOver, s') => (GameOver, s')
      | (Continue, s') => game_loop n' s'
      end
  end.

(** [play_game]: the locals are initialised (lines 139-144, 169), then the
    loop runs. *)
Definition play_game (n : nat) (s : state) : flow * state :=
  let (now, s) := get_clock_ticks s in
  game_loop n (set_loc (mkLoc now 0 false 0) s).

End Loop.

Arguments state B : clear implicits.

(** ** Notions used in the statements *)

Section Notions.

Context {B : Type} `{G : Game B}.

(** [polled s s']: [s'] differs from [s] at most in the number of clock
    reads and in the debounce timestamp, which is then a value read from the
    clock in between. *)
Record polled (s s' : state B) : Prop := mkPolled {
  polled_sc : sc s' = sc s;
  polled_loc : loc s' = loc s;
  polled_board : board s' = board s;
  polled_calls : calls s' = calls s;
  polled_cc : seven_seg_cc s' = seven_seg_cc s;
  polled_ticks : ticks (hw s') = ticks (hw s);
  polled_buttons : button_queue (hw s') = button_queue (hw s);
  polled_serial : serial_buffer (hw s') = serial_buffer (hw s);
  polled_adc : adc (hw s') = adc (hw s);
  polled_conversions : conversions (hw s') = conversions (hw s);
  polled_port : PORTC (hw s') = PORTC (hw s);
  polled_pin : target_pin (joy s') = target_pin (joy s);
  polled_x : stick_x (joy s') = stick_x (joy s);
  polled_y : stick_y (joy s') = stick_y (joy s);
  polled_reads : (reads (hw s) <= reads (hw s'))%nat;
  polled_time :
    joystick_time (joy s') = joystick_time (joy s) \/
    exists k, (reads (hw s) <= k < reads (hw s'))%nat /\
              joystick_time (joy s') = ticks (hw s) k
}.

(** What acting on the input amounts to: after some gates have been
    evaluated, one of the seven branches of the chain is taken.  Every
    branch but the pause toggle and the last needs a running game. *)
Inductive branch (i : input) (s1 : state B) : flow * state B -> Prop :=
| BrLeft : paused (loc s1) = false ->
    branch i s1 (Continue, snd (do_attempt_move MOVE_LEFT s1))
| BrRight : paused (loc s1) = false ->
    branch i s1 (Continue, snd (do_attempt_move MOVE_RIGHT s1))
| BrRotate : paused (loc s1) = false ->
    branch i s1 (Continue, snd (do_attempt_rotation s1))
| BrDrop : paused (loc s1) = false ->
    branch i s1 (drop_one_row_or_fix s1)
| BrHeight : paused (loc s1) = false ->
    button i = 1 \/ serial_input i = chr " " ->
    branch i s1 (drop_from_height s1)
| BrPause : serial_input i = chr "p" \/ serial_input i = chr "P" ->
    branch i s1 (Continue, toggle_pause s1)
| BrNone : serial_input i <> chr "p" -> serial_input i <> chr "P" ->
    branch i s1 (Continue, s1).

(** [acted s s']: what no branch of the chain and no timer-driven drop
    touches -- the queues, the joystick, the display, the decoder state, the
    pause flag with its timestamp -- is the same in [s'] as in [s], and the
    record of calls has only grown.  (The pause toggle is the one action
    outside this relation.) *)
Record acted (s s' : state B) : Prop := mkActed {
  acted_ticks : ticks (hw s') = ticks (hw s);
  acted_buttons : button_queue (hw s') = button_queue (hw s);
  acted_serial : serial_buffer (hw s') = serial_buffer (hw s);
  acted_adc : adc (hw s') = adc (hw s);
  acted_conversions : conversions (hw s') = conversions (hw s);
  acted_port : PORTC (hw s') = PORTC (hw s);
  acted_cc : seven_seg_cc s' = seven_seg_cc s;
  acted_joy : joy s' = joy s;
  acted_count : characters_into_escape_sequence (loc s')
                = characters_into_escape_sequence (loc s);
  acted_paused : paused (loc s') = paused (loc s);
  acted_paused_time : paused_time (loc s') = paused_time (loc s);
  acted_reads : (reads (hw s) <= reads (hw s'))%nat;
  acted_calls : exists l, calls s' = calls s ++ l
}.

(** The state in which the input is checked: display refreshed, one axis
    converted. *)
Definition sampled (s : state B) : state B :=
  convert_joystick (update_seven_segment s).

(** [prepared s s']: what the display refresh, the conversion and the input
    check leave alone. *)
Record prepared (s s' : state B) : Prop := mkPrepared {
  prepared_sc : sc s' = sc s;
  prepared_board : board s' = board s;
  prepared_calls : calls s' = calls s;
  prepared_ticks : ticks (hw s') = ticks (hw s);
  prepared_reads : reads (hw s') = reads (hw s);
  prepared_adc : adc (hw s') = adc (hw s);
  prepared_time : joystick_time (joy s') = joystick_time (joy s);
  prepared_ldt : last_drop_time (loc s') = last_drop_time (loc s);
  prepared_paused : paused (loc s') = paused (loc s);
  prepared_paused_time : paused_time (loc s') = paused_time (loc s)
}.

(** [stamped s s']: the debounce timestamp of [s'] is a value the clock
    returned to a read made since [s]. *)
Definition stamped (s s' : state B) : Prop :=
  exists k, (reads (hw s) <= k < reads (hw s'))%nat /\
            joystick_time (joy s') = ticks (hw s) k.

(** The environment between two passes: button pushes [bs] and serial bytes
    [cs] arrive at the ends of the queues. *)
Definition arrive (bs cs : list Z) (s : state B) : state B :=
  let h := hw s in
  set_hw (mkHw (ticks h) (reads h) (button_queue h ++ bs)
               (serial_buffer h ++ cs) (adc h) (conversions h) (PORTC h)) s.

(** [stays_paused s s']: a run of passes of the loop, with any input
    arriving between them, at the end of each of which the game is paused. *)
Inductive stays_paused : state B -> state B -> Prop :=
| stays_here s : stays_paused s s
| stays_on s bs cs s' s'' :
    loop_body (arrive bs cs s) = (Continue, s') ->
    paused (loc s') = true ->
    stays_paused s' s'' ->
    stays_paused s s''.

(** What a pause keeps. *)
Record frozen (s s' : state B) : Prop := mkFrozen {
  frozen_calls : calls s' = calls s;
  frozen_board : board s' = board s;
  frozen_sc : sc s' = sc s;
  frozen_ldt : last_drop_time (loc s') = last_drop_time (loc s);
  frozen_paused_time : paused_time (loc s') = paused_time (loc s);
  frozen_ticks : ticks (hw s') = ticks (hw s);
  frozen_reads : (reads (hw s) <= reads (hw s'))%nat
}.

(** The end of a pass: on [break] the loop is left, otherwise the timer is
    looked at. *)
Definition finish (r : flow * state B) : flow * state B :=
  match r with
  | (GameOver, s) => (GameOver, s)
  | (Continue, s) => timer_related_events s
  end.


(** The commands the chain of [else if]s can settle on. *)
Inductive command :=
| MoveLeft | MoveRight | Rotate | SoftDrop | HardDrop | TogglePause | NoCommand.

(** The number of clock reads the two horizontal gates make when both are
    evaluated and neither fires: one if the stick is beyond a horizontal
    threshold (the gate of that side is held back by its window), none if it
    is not. *)
Definition x_reads (j : joystick) : nat :=
  if (850 <? stick_x j) || (stick_x j <? 150) then 1 else 0.

(** When each gate fires in the chain of a running game, from the stick
    readings, the debounce timestamp and the clock: the reading is beyond
    the threshold and the clock value the gate reads is past the timestamp
    by more than the window.  The horizontal gates are the first to read the
    clock; the vertical gates are reached only after both horizontal gates
    have been evaluated without firing. *)
Definition left_fires (s : state B) : bool :=
  (850 <? stick_x (joy s))
  && (uint32 (joystick_time (joy s) + 150) <? next_tick s).

Definition right_fires (s : state B) : bool :=
  (stick_x (joy s) <? 150)
  && (uint32 (joystick_time (joy s) + 150) <? next_tick s).

Definition up_fires (s : state B) : bool :=
  (850 <? stick_y (joy s))
  && (uint32 (joystick_time (joy s) + 300)
      <? ticks (hw s) (x_reads (joy s) + reads (hw s))).

Definition down_fires (s : state B) : bool :=
  (stick_y (joy s) <? 150)
  && (uint32 (joystick_time (joy s) + 150)
      <? ticks (hw s) (x_reads (joy s) + reads (hw s))).

(** The command a running game settles on, given the input of the pass: the
    branches in the order of the chain, each taken for its button, its
    cursor key or its gate. *)
Definition chosen (i : input) (s : state B) : command :=
  if (button i =? 3) || (escape_sequence_char i =? chr "D") || left_fires s
  then MoveLeft
  else if (button i =? 0) || (escape_sequence_char i =? chr "C")
          || right_fires s
  then MoveRight
  else if (button i =? 2) || (escape_sequence_char i =? chr "A")
          || up_fires s
  then Rotate
  else if (escape_sequence_char i =? chr "B") || down_fires s
  then SoftDrop
  else if (button i =? 1) || (serial_input i =? chr " ")
  then HardDrop
  else if (serial_input i =? chr "p") || (serial_input i =? chr "P")
  then TogglePause
  else NoCommand.

(** What carrying out a command does. *)
Definition perform (c : command) (s : state B) : flow * state B :=
  match c with
  | MoveLeft => (Continue, snd (do_attempt_move MOVE_LEFT s))
  | MoveRight => (Continue, snd (do_attempt_move MOVE_RIGHT s))
  | Rotate => (Continue, snd (do_attempt_rotation s))
  | SoftDrop => drop_one_row_or_fix s
  | HardDrop => drop_from_height s
  | TogglePause => (Continue, toggle_pause s)
  | NoCommand => (Continue, s)
  end.

(** [window_elapsed w k s]: the [k]-th clock read from now returns a value
    past the debounce timestamp by more than [w]. *)
Definition window_elapsed (w : Z) (k : nat) (s : state B) : Prop :=
  uint32 (joystick_time (joy s) + w) < ticks (hw s) (k + reads (hw s)).

(** [tilt_evaluated i s]: some direction of the stick is beyond its
    threshold, its gate is not skipped for a button or cursor key of the
    same direction, and its window has elapsed at the clock reads at which
    the gate can come to be evaluated (the next one for the horizontal
    gates, the next two for the vertical gates, which may come after a
    horizontal gate that was held back). *)
Definition tilt_evaluated (i : input) (s : state B) : Prop :=
  (button i <> 3 /\ escape_sequence_char i <> chr "D" /\
   850 < stick_x (joy s) /\ window_elapsed 150 0 s) \/
  (button i <> 0 /\ escape_sequence_char i <> chr "C" /\
   stick_x (joy s) < 150 /\ window_elapsed 150 0 s) \/
  (button i <> 2 /\ escape_sequence_char i <> chr "A" /\
   850 < stick_y (joy s) /\ window_elapsed 300 0 s /\ window_elapsed 300 1 s) \/
  (escape_sequence_char i <> chr "B" /\
   stick_y (joy s) < 150 /\ window_elapsed 150 0 s /\ window_elapsed 150 1 s).


End Notions.

(** The initial values of the joystick globals (lines 310-313). *)
Definition initial_joystick : joystick := mkJoy 0 0 500 500.

(** ** A small board for concrete runs *)

(** The block can still fall [fall] rows; [spawns] new blocks fit before the
    board is full.  A new block starts three rows above its resting place
    and every fixed block scores one point. *)
Record toy := mkToy { fall : nat; spawns : nat }.

#[export] Instance toy_game : Game toy.
Proof.
  refine {|
    attempt_move := fun _ b => (true, b);
    attempt_rotation := fun b => (true, b);
    attempt_drop_block_one_row := fun b =>
      match fall b with
      | O => (false, b)
      | S n => (true, mkToy n (spawns b))
      end;
    fix_block_to_board_and_add_new_block := fun b =>
      match spawns b with
      | O => (false, [Score.AddToScore 1], b)
      | S n => (true, [Score.AddToScore 1], mkToy 3 n)
      end;
    rows_below := fall
  |}.
  intros b b'. destruct (fall b) eqn:E; intros H; inversion H; subst.
  cbn. apply Nat.lt_succ_diag_r.
Defined.

(** A state of the loop over the toy board: a clock, the two queues, the
    stick readings with the debounce timestamp, the locals and the
    cleared-rows count. *)
Definition toy_state (clock : nat -> Z) (buttons bytes : list Z)
    (x y jt : Z) (l : locals) (rows : Z) : state toy :=
  mkState (mkHw clock 0 buttons bytes (fun k => if Nat.even k then x else y) 0 0)
          (Score.mk 0 rows) (mkJoy jt 0 x y) 0 l (mkToy 2 5) [].

(** A clock that returns the values of [l] in turn and then stays at the
    last of them. *)
Definition clock_of (l : list Z) : nat -> Z := fun k => nth k l (last l 0).

(** A running game whose last drop was at tick [ldt]. *)
Definition running (ldt : Z) : locals := mkLoc ldt 0 false 0.

(** A game paused at tick [t]. *)
Definition paused_at (ldt t : Z) : locals := mkLoc ldt 0 true t.

(** ** More of project.c and its use of score.c *)

(** The calls of a list that add to the score, with the sum of their values
    as [add_to_score] receives them (converted to [uint16_t]); and the number
    of calls that count a cleared row. *)
Fixpoint added_score (cs : list Score.call) : Z :=
  match cs with
  | [] => 0
  | Score.AddToScore v :: cs' => uint16 v + added_score cs'
  | Score.IncrementClearedRows :: cs' => added_score cs'
  end.

Fixpoint counted_rows (cs : list Score.call) : Z :=
  match cs with
  | [] => 0
  | Score.AddToScore _ :: cs' => counted_rows cs'
  | Score.IncrementClearedRows :: cs' => 1 + counted_rows cs'
  end.

(** The digit a seven-segment pattern of [seven_seg_digits] stands for. *)
Fixpoint index_of (p : Z) (l : list Z) (k : Z) : option Z :=
  match l with
  | [] => None
  | q :: l' => if p =? q then Some k else index_of p l' (k + 1)
  end.

Definition digit_of_segments (p : Z) : option Z := index_of p seven_seg_digits 0.

(** What a reader of the display sees in two successive outputs on [PORTC]:
    the output with bit 7 set carries the tens, the other one the units. *)
Definition displayed_number (p q : Z) : option Z :=
  let tens := if Z.testbit p 7 then p else q in
  let units := if Z.testbit p 7 then q else p in
  match digit_of_segments (Z.land tens 127), digit_of_segments units with
  | Some t, Some u => Some (10 * t + u)
  | _, _ => None
  end.

(** [initialise_hardware], lines 76-77, as far as the converter goes: the
    values written to [ADMUX] and [ADCSRA].  The bit numbers [REFS0], [ADEN]
    and [ADPS2] come from the processor's header and are parameters. *)
Definition initialise_ADMUX (REFS0 : Z) : Z := Z.shiftl 1 REFS0.

Definition initialise_ADCSRA (ADEN ADPS2 : Z) : Z :=
  Z.lor (Z.lor (Z.shiftl 1 ADEN) (Z.shiftl 1 ADPS2)) (Z.shiftl 1 ADPS2).

(** [convert_joystick], line 324: [ADCSRA |= (1<<ADSC)] starts a
    conversion. *)
Definition start_conversion (ADSC ADCSRA : Z) : Z :=
  Z.lor ADCSRA (Z.shiftl 1 ADSC).

(** [convert_joystick], line 326: the condition of the wait,
    [ADCSRA & (1 < ADSC)], on the value [ADCSRA] read from the register.
    The comparison [1 < ADSC] is the [int] 1 or 0. *)
Definition conversion_wait (ADSC ADCSRA : Z) : bool :=
  negb (Z.land ADCSRA (if 1 <? ADSC then 1 else 0) =? 0).

(** A key as the terminal sends it: a plain byte, or a cursor key, sent as
    ESC, '[' and a letter. *)
Inductive key := Plain (b : Z) | Cursor (b : Z).

Definition bytes_of_key (k : key) : list Z :=
  match k with
  | Plain b => [b]
  | Cursor b => [ESCAPE_CHAR; chr "["; b]
  end.

(** What the input check leaves for a key once its last byte is read. *)
Definition input_of_key (k : key) : input :=
  match k with
  | Plain b => mkInput (-1) (to_char b) (-1)
  | Cursor b => mkInput (-1) (-1) (to_char b)
  end.

(** A byte that the loop can tell from "no input": as a [char] it is not
    the -1 the loop uses for that. *)
Definition key_ok (k : key) : Prop :=
  match k with
  | Plain b => 0 <= b < 255 /\ b <> ESCAPE_CHAR
  | Cursor b => 0 <= b < 255
  end.

(** An input check that found something to act on. *)
Definition pending (i : input) : bool :=
  negb ((button i =? -1) && (serial_input i =? -1)
        && (escape_sequence_char i =? -1)).

(** The calls one drop can make, with the way it ends: a successful drop;
    or successful drops (none for the single drop), a failed drop and one
    fix, which ends the game when it fails. *)
Definition drop_shape (l : list board_call) (f : flow) : Prop :=
  (l = [CallDrop true] /\ f = Continue) \/
  exists n ok, l = repeat (CallDrop true) n ++ [CallDrop false; CallFix ok] /\
               f = if ok then Continue else GameOver.

(** The calls one command can make: none, one move, one rotation, or a
    drop. *)
Definition command_shape (l : list board_call) (f : flow) : Prop :=
  (f = Continue /\
   (l = [] \/ (exists m ok, l = [CallMove m ok])
    \/ (exists ok, l = [CallRotation ok]))) \/
  drop_shape l f.

Section MoreLoop.

Context {B : Type} `{G : Game B}.

(** [k] successive input checks, as [k] passes of the loop make them. *)
Fixpoint check_inputs (k : nat) (s : state B) : list input * state B :=
  match k with
  | O => ([], s)
  | S k' =>
      let (i, s1) := check_for_input s in
      let (l, s2) := check_inputs k' s1 in
      (i :: l, s2)
  end.




(** [scored s s']: the score module's state in [s'] comes from that in [s]
    by calls of [add_to_score] and [increment_cleared_rows]. *)
Definition scored (s s' : state B) : Prop :=
  exists cs, sc s' = Score.run_calls cs (sc s).

(** The calls a pass has added to the record. *)
Definition new_calls (s s' : state B) : list board_call :=
  skipn (length (calls s)) (calls s').

End MoreLoop.

(** ** Facts about machine integers *)

Lemma uint32_small z : 0 <= z < 2 ^ 32 -> uint32 z = z.
Proof. intros H. unfold uint32. now apply Z.mod_small. Qed.

Lemma uint32_add_l a b : uint32 (uint32 a + b) = uint32 (a + b).
Proof. unfold uint32. apply Zplus_mod_idemp_l. Qed.

Lemma uint32_add_r a b : uint32 (a + uint32 b) = uint32 (a + b).
Proof. unfold uint32. apply Zplus_mod_idemp_r. Qed.

(** ** Facts about score.c *)

Module ScoreFacts.
Import Score.

Lemma increment_step s :
  0 <= cleared_rows s ->
  cleared_rows (increment_cleared_rows s) =
    if cleared_rows s <? 99 then cleared_rows s + 1 else cleared_rows s.
Proof.
  intros H. unfold increment_cleared_rows.
  destruct (cleared_rows s <? 99) eqn:E; [|reflexivity].
  apply Z.ltb_lt in E. cbn. unfold uint8. rewrite Z.mod_small; lia.
Qed.

Lemma increments_value n s :
  0 <= cleared_rows s <= 99 ->
  cleared_rows (increments n s) = Z.min 99 (cleared_rows s + Z.of_nat n).
Proof.
  revert s. induction n as [|n IH]; intros s H.
  - cbn. lia.
  - cbn [increments]. rewrite IH.
    + rewrite increment_step by lia.
      destruct (Z.ltb_spec (cleared_rows s) 99); lia.
    + rewrite increment_step by lia.
      destruct (Z.ltb_spec (cleared_rows s) 99); lia.
Qed.

Lemma increments_score n s : score (increments n s) = score s.
Proof.
  revert s. induction n as [|n IH]; intros s; [reflexivity|].
  cbn [increments]. rewrite IH. unfold increment_cleared_rows.
  now destruct (cleared_rows s <? 99).
Qed.

End ScoreFacts.

(** C9. Starting from an initialised counter, after any number [n] of
    [increment_cleared_rows] calls the cleared-rows counter is
    [min 99 n]: it never exceeds 99, one more call never decreases it, adds
    exactly 1 while it is strictly below 99 and changes nothing (counter and
    score alike) once it is 99. *)
Theorem cleared_rows_saturates (n : nat) (s0 : Score.t) :
  let s := Score.increments n (Score.init_cleared_rows s0) in
  let s' := Score.increment_cleared_rows s in
  Score.get_cleared_rows s = Z.min 99 (Z.of_nat n) /\
  0 <= Score.get_cleared_rows s <= 99 /\
  Score.get_cleared_rows s <= Score.get_cleared_rows s' /\
  (Score.get_cleared_rows s < 99 ->
   Score.get_cleared_rows s' = Score.get_cleared_rows s + 1) /\
  (Score.get_cleared_rows s = 99 -> s' = s).
Proof.
  cbv zeta. unfold Score.get_cleared_rows.
  assert (V : Score.cleared_rows (Score.increments n (Score.init_cleared_rows s0))
              = Z.min 99 (Z.of_nat n)).
  { rewrite ScoreFacts.increments_value; cbn; lia. }
  rewrite ScoreFacts.increment_step by lia. rewrite V.
  repeat split; try lia.
  - destruct (Z.ltb_spec (Z.min 99 (Z.of_nat n)) 99); lia.
  - intros H. destruct (Z.ltb_spec (Z.min 99 (Z.of_nat n)) 99); lia.
  - intros H. unfold Score.increment_cleared_rows. rewrite V.
    destruct (Z.ltb_spec (Z.min 99 (Z.of_nat n)) 99); [lia|reflexivity].
Qed.


(** ** The drop timer *)

(** While the interval [600 - 30 * rows] is positive (fewer than 20 cleared
    rows) and nothing wraps, the timer-driven drop is due exactly when the
    clock has reached [ldt + interval] and the game is not paused. *)
Lemma timer_drop_due_spec now ldt rows p :
  0 <= rows -> 0 <= ldt + (600 - rows * 30) < 2 ^ 32 ->
  timer_drop_due now ldt rows p = true <->
  (ldt + (600 - 30 * rows) <= now /\ p = false).
Proof.
  intros Hr Hw. unfold timer_drop_due.
  rewrite uint32_small by exact Hw.
  rewrite andb_true_iff, Z.leb_le, negb_true_iff.
  replace (30 * rows) with (rows * 30) by lia. tauto.
Qed.

Lemma timer_interval_values :
  600 - 0 * 30 = 600 /\ 600 - 10 * 30 = 300 /\
  timer_drop_due 599 0 0 false = false /\ timer_drop_due 600 0 0 false = true /\
  timer_drop_due 299 0 10 false = false /\ timer_drop_due 300 0 10 false = true.
Proof. repeat split. Qed.

(** C1. The interval of the drop timer is not clamped.  With 21 cleared rows
    the code adds [600 - 630 = -30] to [last_drop_time]: at
    [last_drop_time = 5000] the drop is due at tick 5000 already (and so on
    every pass of the loop: two passes at a clock standing still at 5000
    both drop the block), and at [last_drop_time = 10] the sum wraps to
    [4294967276], so that a million ticks later no drop is due.  With 20
    cleared rows the interval is 0. *)
Theorem timer_interval_not_clamped :
  timer_drop_due 5000 5000 21 false = true /\
  calls (snd (game_loop 2
      (toy_state (fun _ => 5000) [] [] 500 500 0 (running 5000) 21)))
    = [CallDrop true; CallDrop true] /\
  uint32 (10 + (600 - 21 * 30)) = 4294967276 /\
  timer_drop_due 1000000 10 21 false = false /\
  timer_drop_due 5000 5000 20 false = true.
Proof. repeat split. Qed.

(** The tests of the chain on an absent button or character. *)
Ltac absent_input :=
  change (-1 =? 3) with false; change (-1 =? 0) with false;
  change (-1 =? 2) with false; change (-1 =? 1) with false;
  change (-1 =? chr "D") with false; change (-1 =? chr "C") with false;
  change (-1 =? chr "A") with false; change (-1 =? chr "B") with false;
  change (-1 =? chr " ") with false; change (-1 =? chr "p") with false;
  change (-1 =? chr "P") with false.

(** ** The joystick gates *)

Section GateFacts.

Context {B : Type} `{G : Game B}.

Lemma is_left_gate (s : state B) : is_left s = gate (850 <? stick_x (joy s)) 150 s.
Proof. reflexivity. Qed.
Lemma is_right_gate (s : state B) : is_right s = gate (stick_x (joy s) <? 150) 150 s.
Proof. reflexivity. Qed.
Lemma is_up_gate (s : state B) : is_up s = gate (850 <? stick_y (joy s)) 300 s.
Proof. reflexivity. Qed.
Lemma is_down_gate (s : state B) : is_down s = gate (stick_y (joy s) <? 150) 150 s.
Proof. reflexivity. Qed.

Lemma gate_fires w (s : state B) :
  uint32 (joystick_time (joy s) + w) < next_tick s ->
  gate true w s = (true, fired s).
Proof.
  intros H. unfold gate, next_tick in *. cbn.
  apply Z.ltb_lt in H. rewrite H. reflexivity.
Qed.

Lemma gate_held w (s : state B) :
  next_tick s <= uint32 (joystick_time (joy s) + w) ->
  gate true w s = (false, held s).
Proof.
  intros H. unfold gate, next_tick in *. cbn.
  apply Z.ltb_ge in H. rewrite H. reflexivity.
Qed.

Lemma gate_idle w (s : state B) : gate false w s = (false, s).
Proof. reflexivity. Qed.

(** A gate gives one of three results. *)
Lemma gate_cases t w (s : state B) :
  gate t w s = (true, fired s) \/ gate t w s = (false, held s) \/
  gate t w s = (false, s).
Proof.
  destruct t; [|now right; right].
  destruct (Z.lt_ge_cases (uint32 (joystick_time (joy s) + w)) (next_tick s)).
  - left. now apply gate_fires.
  - right; left. now apply gate_held.
Qed.

End GateFacts.

(** ** What evaluating gates can change *)

Section LoopFacts.

Context {B : Type} `{G : Game B}.

Lemma polled_refl (s : state B) : polled s s.
Proof. constructor; auto. Qed.

Lemma polled_trans (s1 s2 s3 : state B) :
  polled s1 s2 -> polled s2 s3 -> polled s1 s3.
Proof.
  intros [] []. constructor; try congruence; try lia.
  destruct polled_time1 as [E|(k & Hk & E)].
  - rewrite E. destruct polled_time0 as [E0|(k0 & Hk0 & E0)]; [now left|].
    right. exists k0. split; [lia|assumption].
  - right. exists k. split; [lia|]. rewrite E. now rewrite polled_ticks0.
Qed.

Lemma polled_fired (s : state B) : polled s (fired s).
Proof.
  constructor; cbn; auto.
  right. exists (S (reads (hw s))). split; [lia|reflexivity].
Qed.

Lemma polled_held (s : state B) : polled s (held s).
Proof. constructor; cbn; auto. Qed.

Lemma gate_polled t w (s : state B) : polled s (snd (gate t w s)).
Proof.
  destruct (gate_cases t w s) as [E|[E|E]]; rewrite E; cbn [snd].
  - apply polled_fired.
  - apply polled_held.
  - apply polled_refl.
Qed.

Lemma or_else_polled c t w (s : state B) :
  polled s (snd (or_else c (gate t w) s)).
Proof.
  unfold or_else. destruct c; [apply polled_refl|apply gate_polled].
Qed.

End LoopFacts.

(** ** The chain of a running game *)

Section ChainFacts.

Context {B : Type} `{G : Game B}.

Lemma gate_step t w (s : state B) :
  gate t w s
  = if t && (uint32 (joystick_time (joy s) + w) <? next_tick s)
    then (true, fired s)
    else (false, if t then held s else s).
Proof.
  destruct t; [|reflexivity]. cbn [andb].
  destruct (Z.ltb_spec (uint32 (joystick_time (joy s) + w)) (next_tick s)).
  - now apply gate_fires.
  - now apply gate_held.
Qed.

Lemma polled_held2 (s : state B) : polled s (held (held s)).
Proof. eapply polled_trans; apply polled_held. Qed.

Lemma polled_fired_held (s : state B) : polled s (fired (held s)).
Proof. eapply polled_trans; [apply polled_held|apply polled_fired]. Qed.

Lemma polled_fired_held2 (s : state B) : polled s (fired (held (held s))).
Proof. eapply polled_trans; [apply polled_held2|apply polled_fired]. Qed.

Lemma perform_move m (s : state B) :
  (let (_, s0) := do_attempt_move m s in (Continue, s0))
  = (Continue, snd (do_attempt_move m s)).
Proof. now destruct (do_attempt_move m s). Qed.

Lemma perform_rotation (s : state B) :
  (let (_, s0) := do_attempt_rotation s in (Continue, s0))
  = (Continue, snd (do_attempt_rotation s)).
Proof. now destruct (do_attempt_rotation s). Qed.

Lemma held_joy (s : state B) : joy (held s) = joy s.
Proof. reflexivity. Qed.
Lemma held_loc (s : state B) : loc (held s) = loc s.
Proof. reflexivity. Qed.
Lemma fired_loc (s : state B) : loc (fired s) = loc s.
Proof. reflexivity. Qed.
Lemma held_next (s : state B) :
  next_tick (held s) = ticks (hw s) (S (reads (hw s))).
Proof. reflexivity. Qed.

Ltac chain_leaf :=
  eexists; split;
  [|rewrite ?perform_move, ?perform_rotation; cbn [perform]; reflexivity];
  first [apply polled_refl | apply polled_held | apply polled_fired
        | apply polled_held2 | apply polled_fired_held
        | apply polled_fired_held2].

Ltac chain_gate X Y Hp :=
  rewrite gate_step;
  rewrite ?held_joy, ?held_next; unfold next_tick;
  rewrite ?X, ?Y; cbn [andb];
  try lazymatch goal with
  | |- exists _, _ /\ (let (_, _) := (if (?a <? ?b) then _ else _) in _) = _ =>
      destruct (a <? b)
  end;
  cbn [andb orb];
  rewrite ?fired_loc, ?held_loc, ?Hp; cbn [andb orb negb].

(** In a running game the chain settles on [chosen] and carries it out in a
    state that differs from the one it started in by gate evaluations
    only. *)
Lemma process_input_chosen (i : input) (s : state B) :
  paused (loc s) = false ->
  exists s', polled s s' /\ process_input i s = perform (chosen i s) s'.
Proof.
  intros Hp.
  destruct (850 <? stick_x (joy s)) eqn:X1;
    destruct (stick_x (joy s) <? 150) eqn:X2;
    try (apply Z.ltb_lt in X1; apply Z.ltb_lt in X2; lia);
  destruct (850 <? stick_y (joy s)) eqn:Y1;
    destruct (stick_y (joy s) <? 150) eqn:Y2;
    try (apply Z.ltb_lt in Y1; apply Z.ltb_lt in Y2; lia).
  all: unfold process_input, chosen, left_fires, right_fires, up_fires,
         down_fires, x_reads, or_else, next_tick.
  all: rewrite ?X1, ?X2, ?Y1, ?Y2; cbn [orb andb Nat.add].
  all: destruct ((button i =? 3) || (escape_sequence_char i =? chr "D"));
         cbn [orb andb]; rewrite ?Hp; cbn [negb]; [chain_leaf|].
  all: rewrite is_left_gate; chain_gate X1 X2 Hp; try chain_leaf.
  all: destruct ((button i =? 0) || (escape_sequence_char i =? chr "C"));
         cbn [orb andb]; rewrite ?fired_loc, ?held_loc, ?Hp; cbn [negb];
         [chain_leaf|].
  all: rewrite is_right_gate; chain_gate X1 X2 Hp; try chain_leaf.
  all: destruct ((button i =? 2) || (escape_sequence_char i =? chr "A"));
         cbn [orb andb]; rewrite ?fired_loc, ?held_loc, ?Hp; cbn [negb];
         [chain_leaf|].
  all: rewrite is_up_gate; chain_gate Y1 Y2 Hp; try chain_leaf.
  all: destruct (escape_sequence_char i =? chr "B");
         cbn [orb andb]; rewrite ?fired_loc, ?held_loc, ?Hp; cbn [negb];
         [chain_leaf|].
  all: rewrite is_down_gate; chain_gate Y1 Y2 Hp; try chain_leaf.
  all: destruct ((button i =? 1) || (serial_input i =? chr " "));
         cbn [orb andb]; [chain_leaf|].
  all: destruct ((serial_input i =? chr "p") || (serial_input i =? chr "P"));
         chain_leaf.
Qed.
End ChainFacts.

(** ** Joystick readings and the commands they give *)

Section TiltFacts.

Context {B : Type} `{G : Game B}.

Lemma do_attempt_move_calls m (s : state B) :
  calls (snd (do_attempt_move m s))
  = calls s ++ [CallMove m (fst (attempt_move m (board s)))].
Proof.
  unfold do_attempt_move. now destruct (attempt_move m (board s)).
Qed.

Lemma do_attempt_rotation_calls (s : state B) :
  calls (snd (do_attempt_rotation s))
  = calls s ++ [CallRotation (fst (attempt_rotation (board s)))].
Proof.
  unfold do_attempt_rotation. now destruct (attempt_rotation (board s)).
Qed.

Lemma do_fix_calls (s : state B) :
  calls (snd (do_fix_block_to_board_and_add_new_block s))
  = calls s ++ [CallFix (fst (do_fix_block_to_board_and_add_new_block s))].
Proof.
  unfold do_fix_block_to_board_and_add_new_block.
  now destruct (fix_block_to_board_and_add_new_block (board s)) as [[ok cs] b].
Qed.

(** The single drop starts with a call of [attempt_drop_block_one_row]; a
    call of [fix_block_to_board_and_add_new_block] follows exactly when the
    drop fails. *)
Lemma drop_one_row_or_fix_calls (s : state B) :
  exists rest,
    calls (snd (drop_one_row_or_fix s))
    = calls s ++ CallDrop (fst (attempt_drop_block_one_row (board s))) :: rest.
Proof.
  unfold drop_one_row_or_fix, do_attempt_drop_block_one_row.
  destruct (attempt_drop_block_one_row (board s)) as [ok b]. cbn [fst].
  destruct ok.
  - exists []. reflexivity.
  - match goal with |- context [do_fix_block_to_board_and_add_new_block ?x] =>
      pose proof (do_fix_calls x) as F;
      destruct (do_fix_block_to_board_and_add_new_block x) as [ok' s'] end.
    cbn [fst snd] in F. exists [CallFix ok'].
    destruct ok'; cbn; rewrite F; cbn; now rewrite <- app_assoc.
Qed.


End TiltFacts.



(** ** The debounce timestamp *)

Section DebounceFacts.

Context {B : Type} `{G : Game B}.

Lemma gate_debounced (g : state B -> bool * state B) tilted w :
  (forall s, g s = gate (tilted (joy s)) w s) -> debounced g tilted w.
Proof.
  intros E s. rewrite E. repeat split; intros T.
  - rewrite T. apply gate_fires.
  - intros H. rewrite T. apply gate_held. lia.
  - rewrite T. apply gate_idle.
Qed.

(** C3 (as amended).  The four directions share the one timestamp
    [joystick_time] (0 at start).  Each gate fires when its threshold is met
    and the clock is past the timestamp by more than its window (150 ticks
    for left, right and down, 300 for up), and is held back when the
    threshold is not met or the clock has not reached timestamp plus window;
    a gate that fires sets the shared timestamp to the tick it reads then, a
    gate that does not fire leaves it alone.  With a horizontal reading of
    900 and the timestamp at 0, [is_left] is held back at tick 0 and at tick
    100 and fires at tick 151, which becomes the timestamp. *)
Theorem debounce_shared_timestamp :
  debounced (is_left (B := B)) (fun j => 850 <? stick_x j) 150 /\
  debounced (is_right (B := B)) (fun j => stick_x j <? 150) 150 /\
  debounced (is_up (B := B)) (fun j => 850 <? stick_y j) 300 /\
  debounced (is_down (B := B)) (fun j => stick_y j <? 150) 150 /\
  (forall s : state B,
     joystick_time (joy (fired s)) = ticks (hw s) (S (reads (hw s))) /\
     joy (held s) = joy s) /\
  (let s0 := toy_state (clock_of [0; 100; 151; 151]) [] [] 900 500
                       (joystick_time initial_joystick) (running 0) 0 in
   let s1 := snd (is_left s0) in
   let s2 := snd (is_left s1) in
   let s3 := snd (is_left s2) in
   fst (is_left s0) = false /\ fst (is_left s1) = false /\
   fst (is_left s2) = true /\ joystick_time (joy s3) = 151).
Proof.
  split; [|split; [|split; [|split; [|split]]]].
  - apply gate_debounced. intros s. apply is_left_gate.
  - apply gate_debounced. intros s. apply is_right_gate.
  - apply gate_debounced. intros s. apply is_up_gate.
  - apply gate_debounced. intros s. apply is_down_gate.
  - intros s. split; reflexivity.
  - repeat split.
Qed.

End DebounceFacts.

(** C3 as stated fails.  The timestamps are not per direction: with both
    axes at 900, [is_up] fires at tick 1200 when nothing has fired before,
    but is held back at tick 1200 once [is_left] has fired at tick 1000.  And
    a first sample at tick 0 does not fire. *)
Lemma debounce_not_per_direction :
  let fresh := toy_state (fun _ => 1200) [] [] 900 900 0 (running 0) 0 in
  let s := toy_state (clock_of [1000; 1000; 1200]) [] [] 900 900 0 (running 0) 0 in
  let at0 := toy_state (fun _ => 0) [] [] 900 500 0 (running 0) 0 in
  fst (is_up fresh) = true /\
  fst (is_left s) = true /\
  fst (is_up (snd (is_left s))) = false /\
  joystick_time (joy (snd (is_left s))) = 1000 /\
  fst (is_left at0) = false.
Proof. repeat split. Qed.

(** ** The shape of one pass *)

Section PassFacts.

Context {B : Type} `{G : Game B}.

Lemma or_else_gate_polled c (g : state B -> bool * state B) tilted w s :
  (forall s, g s = gate (tilted (joy s)) w s) ->
  polled s (snd (or_else c g s)).
Proof.
  intros E. unfold or_else. destruct c; [apply polled_refl|].
  rewrite E. apply gate_polled.
Qed.

Lemma pause_keys (c : Z) :
  (c =? chr "p") || (c =? chr "P") = true <-> c = chr "p" \/ c = chr "P".
Proof. rewrite orb_true_iff, !Z.eqb_eq. tauto. Qed.

Lemma process_input_shape (i : input) (s : state B) :
  exists s1, polled s s1 /\ branch i s1 (process_input i s).
Proof.
  unfold process_input.
  pose proof (or_else_gate_polled
                ((button i =? 3) || (escape_sequence_char i =? chr "D"))
                is_left (fun j => 850 <? stick_x j) 150 s is_left_gate) as P1.
  destruct (or_else _ is_left s) as [c1 s1]. cbn [snd] in P1.
  pose proof (or_else_gate_polled
                ((button i =? 0) || (escape_sequence_char i =? chr "C"))
                is_right (fun j => stick_x j <? 150) 150 s1 is_right_gate) as P2.
  destruct (or_else _ is_right s1) as [c2 s2]. cbn [snd] in P2.
  pose proof (or_else_gate_polled
                ((button i =? 2) || (escape_sequence_char i =? chr "A"))
                is_up (fun j => 850 <? stick_y j) 300 s2 is_up_gate) as P3.
  destruct (or_else _ is_up s2) as [c3 s3]. cbn [snd] in P3.
  pose proof (or_else_gate_polled (escape_sequence_char i =? chr "B")
                is_down (fun j => stick_y j <? 150) 150 s3 is_down_gate) as P4.
  destruct (or_else _ is_down s3) as [c4 s4]. cbn [snd] in P4.
  pose proof (polled_trans _ _ _ P1 P2) as P12.
  pose proof (polled_trans _ _ _ P12 P3) as P13.
  pose proof (polled_trans _ _ _ P13 P4) as P14.
  assert (Q2 : paused (loc s2) = paused (loc s1))
    by (now rewrite (polled_loc _ _ P2)).
  assert (Q3 : paused (loc s3) = paused (loc s1))
    by (now rewrite (polled_loc _ _ P3)).
  assert (Q4 : paused (loc s4) = paused (loc s1))
    by (now rewrite (polled_loc _ _ P4)).
  rewrite Q2, Q3, Q4.
  destruct (paused (loc s1)) eqn:Q1; cbn [negb].
  - rewrite !andb_false_r. exists s4. split; [assumption|].
    destruct ((serial_input i =? chr "p") || (serial_input i =? chr "P")) eqn:E.
    + apply pause_keys in E. now constructor.
    + apply orb_false_iff in E. destruct E as [E1 E2].
      apply Z.eqb_neq in E1, E2. now constructor.
  - rewrite !andb_true_r.
    destruct c1.
    { exists s1. split; [assumption|].
      destruct (do_attempt_move MOVE_LEFT s1) as [ok s'] eqn:E.
      change s' with (snd (ok, s')). rewrite <- E. now constructor. }
    destruct c2.
    { exists s2. split; [assumption|].
      destruct (do_attempt_move MOVE_RIGHT s2) as [ok s'] eqn:E.
      change s' with (snd (ok, s')). rewrite <- E. constructor. congruence. }
    destruct c3.
    { exists s3. split; [assumption|].
      destruct (do_attempt_rotation s3) as [ok s'] eqn:E.
      change s' with (snd (ok, s')). rewrite <- E. constructor. congruence. }
    exists s4. split; [assumption|].
    destruct c4.
    { constructor. congruence. }
    destruct ((button i =? 1) || (serial_input i =? chr " ")) eqn:E.
    { constructor; [congruence|].
      apply orb_true_iff in E. destruct E as [E|E]; apply Z.eqb_eq in E; auto. }
    destruct ((serial_input i =? chr "p") || (serial_input i =? chr "P")) eqn:E'.
    + apply pause_keys in E'. now constructor.
    + apply orb_false_iff in E'. destruct E' as [E1 E2].
      apply Z.eqb_neq in E1, E2. now constructor.
Qed.

End PassFacts.

(** ** What the actions leave alone *)

Section ActionFacts.

Context {B : Type} `{G : Game B}.

Lemma acted_refl (s : state B) : acted s s.
Proof. constructor; auto. exists []. now rewrite app_nil_r. Qed.

Lemma acted_trans (s1 s2 s3 : state B) :
  acted s1 s2 -> acted s2 s3 -> acted s1 s3.
Proof.
  intros [] []. constructor; try congruence; try lia.
  destruct acted_calls0 as [l E], acted_calls1 as [l' E'].
  exists (l ++ l'). now rewrite E', E, app_assoc.
Qed.

Lemma held_same (s : state B) :
  calls (held s) = calls s /\ board (held s) = board s /\
  sc (held s) = sc s /\ loc (held s) = loc s /\ joy (held s) = joy s.
Proof. repeat split. Qed.

Lemma acted_held (s : state B) : acted s (held s).
Proof. constructor; cbn; auto. exists []. now rewrite app_nil_r. Qed.

Lemma acted_move m (s : state B) : acted s (snd (do_attempt_move m s)).
Proof.
  unfold do_attempt_move. destruct (attempt_move m (board s)) as [ok b].
  constructor; cbn; auto. now eexists.
Qed.

Lemma acted_rotation (s : state B) : acted s (snd (do_attempt_rotation s)).
Proof.
  unfold do_attempt_rotation. destruct (attempt_rotation (board s)) as [ok b].
  constructor; cbn; auto. now eexists.
Qed.

Lemma acted_drop (s : state B) :
  acted s (snd (do_attempt_drop_block_one_row s)).
Proof.
  unfold do_attempt_drop_block_one_row.
  destruct (attempt_drop_block_one_row (board s)) as [ok b].
  constructor; cbn; auto. now eexists.
Qed.

Lemma acted_fix (s : state B) :
  acted s (snd (do_fix_block_to_board_and_add_new_block s)).
Proof.
  unfold do_fix_block_to_board_and_add_new_block.
  destruct (fix_block_to_board_and_add_new_block (board s)) as [[ok cs] b].
  constructor; cbn; auto. now eexists.
Qed.

Lemma acted_stamp (s : state B) :
  acted s (let (now, s') := get_clock_ticks s in set_last_drop_time now s').
Proof. constructor; cbn; auto. exists []. now rewrite app_nil_r. Qed.

Lemma acted_drop_one_row_or_fix (s : state B) :
  acted s (snd (drop_one_row_or_fix s)).
Proof.
  unfold drop_one_row_or_fix.
  pose proof (acted_drop s) as A.
  destruct (do_attempt_drop_block_one_row s) as [ok s1]. cbn [snd] in A.
  destruct ok.
  - eapply acted_trans; [exact A|]. apply (acted_stamp s1).
  - pose proof (acted_fix s1) as A'.
    destruct (do_fix_block_to_board_and_add_new_block s1) as [ok' s2].
    cbn [snd] in A'. pose proof (acted_trans _ _ _ A A') as A2.
    destruct ok'; [|exact A2].
    eapply acted_trans; [exact A2|]. apply (acted_stamp s2).
Qed.

Lemma acted_drop_until_failure n (s : state B) :
  acted s (drop_until_failure n s).
Proof.
  revert s. induction n as [|n IH]; intros s; [apply acted_refl|].
  cbn [drop_until_failure].
  pose proof (acted_drop s) as A.
  destruct (do_attempt_drop_block_one_row s) as [ok s1]. cbn [snd] in A.
  destruct ok; [|exact A].
  eapply acted_trans; [exact A|apply IH].
Qed.

Lemma acted_drop_from_height (s : state B) :
  acted s (snd (drop_from_height s)).
Proof.
  unfold drop_from_height.
  pose proof (acted_drop_until_failure (S (rows_below (board s))) s) as A.
  pose proof (acted_fix (drop_until_failure (S (rows_below (board s))) s)) as A'.
  destruct (do_fix_block_to_board_and_add_new_block _) as [ok s2].
  cbn [snd] in A'. destruct ok; eapply acted_trans; eassumption.
Qed.

(** The timer-driven part of a pass reads the clock and then either does
    nothing more or makes the single drop. *)
Lemma timer_related_events_cases (s : state B) :
  (timer_drop_due (next_tick s) (last_drop_time (loc s))
     (Score.get_cleared_rows (sc s)) (paused (loc s)) = false /\
   timer_related_events s = (Continue, held s)) \/
  (timer_drop_due (next_tick s) (last_drop_time (loc s))
     (Score.get_cleared_rows (sc s)) (paused (loc s)) = true /\
   timer_related_events s = drop_one_row_or_fix (held s)).
Proof.
  unfold timer_related_events, next_tick, held. cbn.
  destruct (timer_drop_due _ _ _ _); [right|left]; split; reflexivity.
Qed.

Lemma timer_paused (s : state B) :
  paused (loc s) = true -> timer_related_events s = (Continue, held s).
Proof.
  intros Hp. destruct (timer_related_events_cases s) as [[_ E]|[D _]]; [exact E|].
  unfold timer_drop_due in D. rewrite Hp, andb_false_r in D. discriminate.
Qed.

Lemma acted_timer (s : state B) : acted s (snd (timer_related_events s)).
Proof.
  destruct (timer_related_events_cases s) as [[_ E]|[_ E]]; rewrite E.
  - apply acted_held.
  - eapply acted_trans; [apply acted_held|apply acted_drop_one_row_or_fix].
Qed.

End ActionFacts.

(** ** The start of a pass *)

Section PrepareFacts.

Context {B : Type} `{G : Game B}.

Lemma prepared_sampled (s : state B) : prepared s (sampled s).
Proof.
  unfold sampled, convert_joystick, update_seven_segment.
  constructor; cbn; auto.
  destruct (target_pin (joy s) =? 0); reflexivity.
Qed.

Lemma sampled_queues (s : state B) :
  button_queue (hw (sampled s)) = button_queue (hw s) /\
  serial_buffer (hw (sampled s)) = serial_buffer (hw s) /\
  characters_into_escape_sequence (loc (sampled s))
  = characters_into_escape_sequence (loc s).
Proof. repeat split. Qed.

Lemma prepared_trans (s1 s2 s3 : state B) :
  prepared s1 s2 -> prepared s2 s3 -> prepared s1 s3.
Proof. intros [] []. constructor; congruence. Qed.

Lemma check_for_input_prepared (s : state B) :
  prepared s (snd (check_for_input s)) /\
  joy (snd (check_for_input s)) = joy s.
Proof.
  unfold check_for_input, button_pushed, serial_input_available, fgetc_stdin.
  destruct (button_queue (hw s)) as [|b bs]; cbn.
  - destruct (serial_buffer (hw s)) as [|c cs]; cbn.
    + split; [constructor|]; reflexivity.
    + destruct (escape_sequence_step _ _) as [[n si] e].
      split; [constructor|]; reflexivity.
  - destruct (b =? -1); cbn; [|split; [constructor|]; reflexivity].
    destruct (serial_buffer (hw s)) as [|c cs]; cbn.
    + split; [constructor|]; reflexivity.
    + destruct (escape_sequence_step _ _) as [[n si] e].
      split; [constructor|]; reflexivity.
Qed.

Lemma prepared_checked (s : state B) :
  prepared s (snd (check_for_input (sampled s))).
Proof.
  eapply prepared_trans; [apply prepared_sampled|apply check_for_input_prepared].
Qed.

(** The pause toggle in a paused game: the game runs again and
    [last_drop_time] has moved on by the clock's value less [paused_time]. *)
Lemma toggle_pause_resumes (s : state B) :
  paused (loc s) = true ->
  loc (toggle_pause s)
  = mkLoc (uint32 (last_drop_time (loc s)
                   + uint32 (next_tick s - paused_time (loc s))))
          (characters_into_escape_sequence (loc s)) false (paused_time (loc s)) /\
  calls (toggle_pause s) = calls s /\ board (toggle_pause s) = board s /\
  sc (toggle_pause s) = sc s /\ joy (toggle_pause s) = joy s /\
  hw (toggle_pause s) = hw (held s).
Proof.
  intros Hp. unfold toggle_pause. rewrite Hp. cbn. repeat split.
Qed.

(** The pause toggle in a running game: the game is paused and
    [paused_time] is the clock's value. *)
Lemma toggle_pause_pauses (s : state B) :
  paused (loc s) = false ->
  loc (toggle_pause s)
  = mkLoc (last_drop_time (loc s))
          (characters_into_escape_sequence (loc s)) true (next_tick s) /\
  calls (toggle_pause s) = calls s /\ board (toggle_pause s) = board s /\
  sc (toggle_pause s) = sc s /\ joy (toggle_pause s) = joy s /\
  hw (toggle_pause s) = hw (held s).
Proof.
  intros Hp. unfold toggle_pause. rewrite Hp. cbn. repeat split.
Qed.

(** Acting on the input in a paused game: gates are evaluated, and then
    either the pause toggle or nothing happens. *)
Lemma process_input_paused (i : input) (s : state B) :
  paused (loc s) = true ->
  exists s1, polled s s1 /\
    ((serial_input i = chr "p" \/ serial_input i = chr "P") /\
     process_input i s = (Continue, toggle_pause s1) \/
     (serial_input i <> chr "p" /\ serial_input i <> chr "P") /\
     process_input i s = (Continue, s1)).
Proof.
  intros Hp. destruct (process_input_shape i s) as (s1 & P & Br).
  exists s1. split; [assumption|].
  assert (Hp1 : paused (loc s1) = true) by (now rewrite (polled_loc _ _ P)).
  inversion Br; try congruence; [left|right]; auto.
Qed.

End PrepareFacts.

(** ** The paused game *)

Section PauseFacts.

Context {B : Type} `{G : Game B}.

(** C8.  In a pass that starts paused, acting on the input makes no call to
    the game module and does not end the game, whatever the input and the
    joystick; the game leaves the pause exactly when the serial input of the
    pass is a plain 'p' or 'P'.  The drop timer's condition is false for
    every clock value while the game is paused, and a pass that ends paused
    has made no call at all and has changed neither board, score,
    [last_drop_time] nor [paused_time]. *)
Theorem paused_game_ignores_commands (s : state B)
    (Hp : paused (loc s) = true) :
  let i := fst (check_for_input (sampled s)) in
  let s1 := snd (check_for_input (sampled s)) in
  let r := process_input i s1 in
  fst r = Continue /\
  calls (snd r) = calls s /\ board (snd r) = board s /\ sc (snd r) = sc s /\
  (paused (loc (snd r)) = false <->
   serial_input i = chr "p" \/ serial_input i = chr "P") /\
  (forall now ldt rows, timer_drop_due now ldt rows true = false) /\
  (paused (loc (snd r)) = true ->
   loop_body s = (Continue, held (snd r)) /\
   calls (snd (loop_body s)) = calls s /\
   board (snd (loop_body s)) = board s /\
   sc (snd (loop_body s)) = sc s /\
   last_drop_time (loc (snd (loop_body s))) = last_drop_time (loc s) /\
   paused_time (loc (snd (loop_body s))) = paused_time (loc s)).
Proof.
  intros i s1 r.
  pose proof (prepared_checked s) as P. fold s1 in P.
  assert (Hp1 : paused (loc s1) = true) by (now rewrite (prepared_paused _ _ P)).
  destruct (process_input_paused i s1 Hp1) as (s2 & Q & [[K E]|[[K1 K2] E]]).
  - (* the toggle *)
    assert (Hp2 : paused (loc s2) = true) by (now rewrite (polled_loc _ _ Q)).
    destruct (toggle_pause_resumes s2 Hp2) as (L & C & Bd & S & _).
    subst r. rewrite E. cbn [fst snd]. rewrite L, C, Bd, S. cbn [paused].
    rewrite (polled_calls _ _ Q), (polled_board _ _ Q), (polled_sc _ _ Q).
    rewrite (prepared_calls _ _ P), (prepared_board _ _ P), (prepared_sc _ _ P).
    repeat split; auto; try discriminate.
    intros now ldt rows. unfold timer_drop_due. apply andb_false_r.
  - (* anything else *)
    assert (Hp2 : paused (loc s2) = true) by (now rewrite (polled_loc _ _ Q)).
    subst r. rewrite E. cbn [fst snd]. rewrite Hp2.
    rewrite (polled_calls _ _ Q), (polled_board _ _ Q), (polled_sc _ _ Q).
    rewrite (prepared_calls _ _ P), (prepared_board _ _ P), (prepared_sc _ _ P).
    assert (LB : loop_body s = (Continue, held s2)).
    { unfold loop_body. fold (sampled s).
      destruct (check_for_input (sampled s)) as [i' s1'] eqn:C.
      subst i s1. cbn [fst snd] in E. rewrite E. now apply timer_paused. }
    repeat split; auto; try discriminate; try (intros [?|?]; congruence).
    + intros now ldt rows. unfold timer_drop_due. apply andb_false_r.
    + rewrite LB. cbn. rewrite (polled_calls _ _ Q). apply (prepared_calls _ _ P).
    + rewrite LB. cbn. rewrite (polled_board _ _ Q). apply (prepared_board _ _ P).
    + rewrite LB. cbn. rewrite (polled_sc _ _ Q). apply (prepared_sc _ _ P).
    + rewrite LB. cbn. rewrite (polled_loc _ _ Q). apply (prepared_ldt _ _ P).
    + rewrite LB. cbn. rewrite (polled_loc _ _ Q). apply (prepared_paused_time _ _ P).
Qed.

End PauseFacts.

(** ** Input during a pause *)

Section PausedInputFacts.

Context {B : Type} `{G : Game B}.

Lemma poll_gates_polled (i : input) (s : state B) : polled s (poll_gates i s).
Proof.
  unfold poll_gates.
  eapply polled_trans; [|eapply or_else_gate_polled with (tilted := fun j => stick_y j <? 150); apply is_down_gate].
  eapply polled_trans; [|eapply or_else_gate_polled with (tilted := fun j => 850 <? stick_y j); apply is_up_gate].
  eapply polled_trans; [|eapply or_else_gate_polled with (tilted := fun j => stick_x j <? 150); apply is_right_gate].
  eapply or_else_gate_polled with (tilted := fun j => 850 <? stick_x j); apply is_left_gate.
Qed.

(** In a paused game every gate of the chain is evaluated and then only the
    pause toggle is looked at. *)
Lemma process_input_paused_eq (i : input) (s : state B) :
  paused (loc s) = true ->
  process_input i s
  = (Continue,
     if (serial_input i =? chr "p") || (serial_input i =? chr "P")
     then toggle_pause (poll_gates i s) else poll_gates i s).
Proof.
  intros Hp. unfold process_input, poll_gates.
  pose proof (or_else_gate_polled
                ((button i =? 3) || (escape_sequence_char i =? chr "D"))
                is_left (fun j => 850 <? stick_x j) 150 s is_left_gate) as P1.
  destruct (or_else _ is_left s) as [c1 s1]. cbn [snd] in *.
  pose proof (or_else_gate_polled
                ((button i =? 0) || (escape_sequence_char i =? chr "C"))
                is_right (fun j => stick_x j <? 150) 150 s1 is_right_gate) as P2.
  destruct (or_else _ is_right s1) as [c2 s2]. cbn [snd] in *.
  pose proof (or_else_gate_polled
                ((button i =? 2) || (escape_sequence_char i =? chr "A"))
                is_up (fun j => 850 <? stick_y j) 300 s2 is_up_gate) as P3.
  destruct (or_else _ is_up s2) as [c3 s3]. cbn [snd] in *.
  pose proof (or_else_gate_polled (escape_sequence_char i =? chr "B")
                is_down (fun j => stick_y j <? 150) 150 s3 is_down_gate) as P4.
  destruct (or_else _ is_down s3) as [c4 s4]. cbn [snd] in *.
  rewrite (polled_loc _ _ P4), (polled_loc _ _ P3), (polled_loc _ _ P2),
    (polled_loc _ _ P1), Hp.
  cbn [negb]. rewrite !andb_false_r.
  now destruct ((serial_input i =? chr "p") || (serial_input i =? chr "P")).
Qed.

Lemma stamped_polled (s s1 s2 : state B) :
  stamped s s1 -> ticks (hw s1) = ticks (hw s) -> polled s1 s2 -> stamped s s2.
Proof.
  intros (k & Hk & E) T P.
  destruct (polled_time _ _ P) as [E'|(k' & Hk' & E')].
  - exists k. split; [pose proof (polled_reads _ _ P); lia|congruence].
  - exists k'. split; [lia|congruence].
Qed.

Lemma stamped_fired (s : state B) : stamped s (fired s).
Proof. exists (S (reads (hw s))). cbn. split; [lia|reflexivity]. Qed.

Lemma stamped_fired_held (s : state B) : stamped s (fired (held s)).
Proof. exists (S (S (reads (hw s)))). cbn. split; [lia|reflexivity]. Qed.

(** The two horizontal gates, evaluated or skipped: they leave the state as
    it is, or one of them is held back at the cost of one read, or one of
    them fires. *)
Lemma horizontal_polls c1 c2 (s : state B) :
  let s2 := snd (or_else c2 is_right (snd (or_else c1 is_left s))) in
  s2 = s \/ s2 = held s \/ (stamped s s2 /\ polled s s2).
Proof.
  assert (F : forall s' : state B, polled (fired s) s' ->
                stamped s s' /\ polled s s').
  { intros s' P. split.
    - eapply stamped_polled; [apply stamped_fired|reflexivity|exact P].
    - eapply polled_trans; [apply polled_fired|exact P]. }
  unfold or_else. rewrite is_left_gate, gate_step.
  destruct (850 <? stick_x (joy s)) eqn:X1;
    destruct (stick_x (joy s) <? 150) eqn:X2;
    try (apply Z.ltb_lt in X1; apply Z.ltb_lt in X2; lia);
    cbn [andb].
  all: destruct c1; cbn [snd].
  all: try (destruct (uint32 (joystick_time (joy s) + 150) <? next_tick s) eqn:W;
            cbn [snd]).
  all: try match goal with
       | |- context [fired _] =>
           right; right; apply F; destruct c2; cbn [snd];
           [apply polled_refl|rewrite is_right_gate; apply gate_polled]
       end.
  all: destruct c2; cbn [snd]; auto.
  all: rewrite is_right_gate, gate_step, ?held_joy, ?X1, ?X2; cbn [andb snd];
       auto.
  all: destruct (uint32 (joystick_time (joy s) + 150) <? next_tick s);
       cbn [snd]; auto.
  all: right; right; apply F; apply polled_refl.
Qed.

(** A paused game: a tilt whose gate is evaluated, with its window elapsed,
    stamps the timestamp. *)
Lemma poll_gates_stamps_evaluated (i : input) (s : state B) :
  tilt_evaluated i s -> stamped s (poll_gates i s).
Proof.
  intros H. unfold poll_gates, tilt_evaluated, window_elapsed in *.
  cbn [Nat.add] in H.
  assert (St : forall s' : state B, polled (fired s) s' -> stamped s s').
  { intros s' P. eapply stamped_polled; [apply stamped_fired|reflexivity|exact P]. }
  assert (St' : forall s' : state B, polled (fired (held s)) s' -> stamped s s').
  { intros s' P. eapply stamped_polled; [apply stamped_fired_held|reflexivity|exact P]. }
  assert (P34 : forall c3 c4 (s2 : state B),
             polled s2 (snd (or_else c4 is_down (snd (or_else c3 is_up s2))))).
  { intros c3 c4 s2.
    apply polled_trans with (snd (or_else c3 is_up s2)).
    - eapply or_else_gate_polled with (tilted := fun j => 850 <? stick_y j);
        apply is_up_gate.
    - eapply or_else_gate_polled with (tilted := fun j => stick_y j <? 150);
        apply is_down_gate. }
  assert (Pd : forall c4 (s3 : state B), polled s3 (snd (or_else c4 is_down s3))).
  { intros c4 s3.
    eapply or_else_gate_polled with (tilted := fun j => stick_y j <? 150);
      apply is_down_gate. }
  assert (Pr : forall c2 (s1 : state B), polled s1 (snd (or_else c2 is_right s1))).
  { intros c2 s1.
    eapply or_else_gate_polled with (tilted := fun j => stick_x j <? 150);
      apply is_right_gate. }
  destruct H as [(Nb & Ne & X & W)|[(Nb & Ne & X & W)|
                 [(Nb & Ne & Y & W0 & W1)|(Ne & Y & W0 & W1)]]].
  - (* left *)
    apply Z.eqb_neq in Nb, Ne. rewrite Nb, Ne. cbn [orb or_else].
    rewrite is_left_gate.
    assert (E : (850 <? stick_x (joy s)) = true) by (apply Z.ltb_lt; lia).
    rewrite E, gate_fires by assumption. cbn [snd]. apply St.
    eapply polled_trans; [|apply P34]. apply Pr.
  - (* right *)
    apply Z.eqb_neq in Nb, Ne. rewrite Nb, Ne. cbn [orb].
    assert (E : (850 <? stick_x (joy s)) = false) by (apply Z.ltb_ge; lia).
    assert (E1 : snd (or_else ((button i =? 3) || (escape_sequence_char i =? chr "D"))
                        is_left s) = s).
    { unfold or_else. destruct (_ || _); [reflexivity|].
      now rewrite is_left_gate, E, gate_idle. }
    rewrite E1. cbn [or_else]. rewrite is_right_gate.
    assert (E' : (stick_x (joy s) <? 150) = true) by (apply Z.ltb_lt; lia).
    rewrite E', gate_fires by assumption. cbn [snd]. apply St. apply P34.
  - (* up *)
    apply Z.eqb_neq in Nb, Ne. rewrite Nb, Ne. cbn [orb].
    assert (E : (850 <? stick_y (joy s)) = true) by (apply Z.ltb_lt; lia).
    destruct (horizontal_polls
                ((button i =? 3) || (escape_sequence_char i =? chr "D"))
                ((button i =? 0) || (escape_sequence_char i =? chr "C")) s)
      as [E2|[E2|[S2 Q2]]]; cbv zeta in *.
    + rewrite E2. cbn [or_else]. rewrite is_up_gate, E, gate_fires by assumption.
      cbn [snd]. apply St. apply Pd.
    + rewrite E2. cbn [or_else]. rewrite is_up_gate, held_joy, E, gate_fires
        by (rewrite held_next, held_joy; assumption).
      cbn [snd]. apply St'. apply Pd.
    + eapply stamped_polled; [exact S2|apply (polled_ticks _ _ Q2)|].
      apply (P34 false).
  - (* down *)
    apply Z.eqb_neq in Ne. rewrite Ne.
    assert (E : (850 <? stick_y (joy s)) = false) by (apply Z.ltb_ge; lia).
    assert (E' : (stick_y (joy s) <? 150) = true) by (apply Z.ltb_lt; lia).
    assert (E3 : forall c3 (s2 : state B), stick_y (joy s2) = stick_y (joy s) ->
               snd (or_else c3 is_up s2) = s2).
    { intros c3 s2 Ey. unfold or_else. destruct c3; [reflexivity|].
      now rewrite is_up_gate, Ey, E, gate_idle. }
    destruct (horizontal_polls
                ((button i =? 3) || (escape_sequence_char i =? chr "D"))
                ((button i =? 0) || (escape_sequence_char i =? chr "C")) s)
      as [E2|[E2|[S2 Q2]]]; cbv zeta in *.
    + rewrite E2, E3 by reflexivity. cbn [or_else].
      rewrite is_down_gate, E', gate_fires by assumption.
      cbn [snd]. apply St. apply polled_refl.
    + rewrite E2, E3 by reflexivity. cbn [or_else].
      rewrite is_down_gate, held_joy, E', gate_fires
        by (rewrite held_next, held_joy; assumption).
      cbn [snd]. apply St'. apply polled_refl.
    + eapply stamped_polled; [exact S2|apply (polled_ticks _ _ Q2)|].
      apply P34.
Qed.
End PausedInputFacts.

Section PausedPassFacts.

Context {B : Type} `{G : Game B}.

(** A pass that starts paused, as one equation. *)
Lemma loop_body_paused (s : state B) :
  paused (loc s) = true ->
  let i := fst (check_for_input (sampled s)) in
  let s4 := poll_gates i (snd (check_for_input (sampled s))) in
  loop_body s
  = if (serial_input i =? chr "p") || (serial_input i =? chr "P")
    then timer_related_events (toggle_pause s4)
    else (Continue, held s4).
Proof.
  intros Hp i s4.
  pose proof (prepared_checked s) as P.
  unfold loop_body. fold (sampled s). subst i s4.
  destruct (check_for_input (sampled s)) as [i s1]. cbn [fst snd] in *.
  rewrite process_input_paused_eq by (now rewrite (prepared_paused _ _ P)).
  destruct ((serial_input i =? chr "p") || (serial_input i =? chr "P"));
    [reflexivity|].
  apply timer_paused.
  rewrite (polled_loc _ _ (poll_gates_polled i s1)).
  now rewrite (prepared_paused _ _ P).
Qed.

(** What is left of the queues, the decoder state and the joystick at the
    end of a pass that starts paused is what the input check and the gates
    left. *)
Lemma loop_body_paused_frame (s : state B) :
  paused (loc s) = true ->
  let i := fst (check_for_input (sampled s)) in
  let s1 := snd (check_for_input (sampled s)) in
  let s' := snd (loop_body s) in
  button_queue (hw s') = button_queue (hw s1) /\
  serial_buffer (hw s') = serial_buffer (hw s1) /\
  characters_into_escape_sequence (loc s')
  = characters_into_escape_sequence (loc s1) /\
  joy s' = joy (poll_gates i s1) /\
  (reads (hw (poll_gates i s1)) <= reads (hw s'))%nat.
Proof.
  intros Hp i s1 s'. subst s'. rewrite (loop_body_paused s Hp).
  fold i s1. pose proof (poll_gates_polled i s1) as Q.
  assert (Hp4 : paused (loc (poll_gates i s1)) = true).
  { rewrite (polled_loc _ _ Q). subst s1.
    now rewrite (prepared_paused _ _ (prepared_checked s)). }
  destruct ((serial_input i =? chr "p") || (serial_input i =? chr "P")).
  - destruct (toggle_pause_resumes _ Hp4) as (L & _ & _ & _ & J & H).
    pose proof (acted_timer (toggle_pause (poll_gates i s1))) as A.
    rewrite (acted_buttons _ _ A), (acted_serial _ _ A), (acted_count _ _ A),
      (acted_joy _ _ A), H, L, J. cbn.
    rewrite (polled_buttons _ _ Q), (polled_serial _ _ Q), (polled_loc _ _ Q).
    repeat split.
    pose proof (acted_reads _ _ A) as R. rewrite H in R. cbn in R. lia.
  - cbn. rewrite (polled_buttons _ _ Q), (polled_serial _ _ Q), (polled_loc _ _ Q).
    repeat split. lia.
Qed.

End PausedPassFacts.

(** ** The input check *)

Section CheckFacts.

Context {B : Type} `{G : Game B}.

Lemma check_for_input_button (s : state B) b rest :
  button_queue (hw s) = b :: rest -> b <> -1 ->
  fst (check_for_input s) = mkInput b (-1) (-1) /\
  button_queue (hw (snd (check_for_input s))) = rest /\
  serial_buffer (hw (snd (check_for_input s))) = serial_buffer (hw s) /\
  loc (snd (check_for_input s)) = loc s.
Proof.
  intros Q Hb. unfold check_for_input, button_pushed. rewrite Q.
  apply Z.eqb_neq in Hb. rewrite Hb. cbn. repeat split.
Qed.

Lemma check_for_input_serial (s : state B) c rest :
  button_queue (hw s) = [] -> serial_buffer (hw s) = c :: rest ->
  let r := escape_sequence_step (characters_into_escape_sequence (loc s))
                                (to_char c) in
  fst (check_for_input s) = mkInput (-1) (snd (fst r)) (snd r) /\
  button_queue (hw (snd (check_for_input s))) = [] /\
  serial_buffer (hw (snd (check_for_input s))) = rest /\
  characters_into_escape_sequence (loc (snd (check_for_input s))) = fst (fst r).
Proof.
  intros Q S. unfold check_for_input, button_pushed, serial_input_available,
    fgetc_stdin. rewrite Q. cbn. rewrite S. cbn.
  destruct (escape_sequence_step _ _) as [[n si] e]. cbn. rewrite Q.
  repeat split.
Qed.

Lemma check_for_input_idle (s : state B) :
  button_queue (hw s) = [] -> serial_buffer (hw s) = [] ->
  check_for_input s = (mkInput (-1) (-1) (-1), s).
Proof.
  intros Q S. unfold check_for_input, button_pushed, serial_input_available.
  rewrite Q. cbn. rewrite S. reflexivity.
Qed.

Lemma escape_sequence_step_plain n c :
  snd (fst (escape_sequence_step n c)) <> -1 ->
  fst (fst (escape_sequence_step n c)) = 0.
Proof.
  unfold escape_sequence_step.
  repeat match goal with
         | |- context [if ?b then _ else _] => destruct b
         end; cbn; congruence.
Qed.

(** A byte that is left in [serial_input] for the chain to act on leaves the
    decoder idle. *)
Lemma check_for_input_plain (s : state B) :
  serial_input (fst (check_for_input s)) <> -1 ->
  characters_into_escape_sequence (loc (snd (check_for_input s))) = 0.
Proof.
  unfold check_for_input, button_pushed, serial_input_available, fgetc_stdin.
  destruct (button_queue (hw s)) as [|b bs]; cbn.
  - destruct (serial_buffer (hw s)) as [|c cs]; cbn; [congruence|].
    pose proof (escape_sequence_step_plain
                  (characters_into_escape_sequence (loc s)) (to_char c)) as E.
    destruct (escape_sequence_step _ _) as [[n si] e]. cbn in *. exact E.
  - destruct (b =? -1); cbn; [|congruence].
    destruct (serial_buffer (hw s)) as [|c cs]; cbn; [congruence|].
    pose proof (escape_sequence_step_plain
                  (characters_into_escape_sequence (loc s)) (to_char c)) as E.
    destruct (escape_sequence_step _ _) as [[n si] e]. cbn in *. exact E.
Qed.

End CheckFacts.


(** ** A pause from beginning to end *)

Section EpisodeFacts.

Context {B : Type} `{G : Game B}.

Lemma frozen_refl (s : state B) : frozen s s.
Proof. constructor; auto. Qed.

Lemma frozen_trans (s1 s2 s3 : state B) :
  frozen s1 s2 -> frozen s2 s3 -> frozen s1 s3.
Proof. intros [] []. constructor; try congruence; lia. Qed.

(** The state the gates of a pass are evaluated in keeps everything a pause
    keeps. *)
Lemma frozen_polled_checked (s : state B) i :
  frozen s (poll_gates i (snd (check_for_input (sampled s)))).
Proof.
  pose proof (prepared_checked s) as P.
  pose proof (poll_gates_polled i (snd (check_for_input (sampled s)))) as Q.
  constructor.
  - rewrite (polled_calls _ _ Q). apply (prepared_calls _ _ P).
  - rewrite (polled_board _ _ Q). apply (prepared_board _ _ P).
  - rewrite (polled_sc _ _ Q). apply (prepared_sc _ _ P).
  - rewrite (polled_loc _ _ Q). apply (prepared_ldt _ _ P).
  - rewrite (polled_loc _ _ Q). apply (prepared_paused_time _ _ P).
  - rewrite (polled_ticks _ _ Q). apply (prepared_ticks _ _ P).
  - pose proof (polled_reads _ _ Q). rewrite (prepared_reads _ _ P) in *. lia.
Qed.

(** A pass that starts and ends paused. *)
Lemma loop_body_stays_paused (s : state B) :
  paused (loc s) = true -> paused (loc (snd (loop_body s))) = true ->
  frozen s (snd (loop_body s)).
Proof.
  intros Hp Hp'. pose proof (loop_body_paused s Hp) as LB. cbv zeta in LB.
  set (i := fst (check_for_input (sampled s))) in *.
  set (s4 := poll_gates i (snd (check_for_input (sampled s)))) in *.
  pose proof (frozen_polled_checked s i) as F. fold s4 in F.
  assert (Hp4 : paused (loc s4) = true).
  { subst s4. rewrite (polled_loc _ _ (poll_gates_polled _ _)).
    now rewrite (prepared_paused _ _ (prepared_checked s)). }
  destruct ((serial_input i =? chr "p") || (serial_input i =? chr "P")).
  - exfalso. rewrite LB in Hp'.
    rewrite (acted_paused _ _ (acted_timer _)) in Hp'.
    destruct (toggle_pause_resumes s4 Hp4) as (L & _).
    rewrite L in Hp'. discriminate.
  - rewrite LB. cbn [snd]. eapply frozen_trans; [exact F|].
    constructor; cbn; auto.
Qed.

Lemma stays_paused_frozen (s s' : state B) :
  paused (loc s) = true -> stays_paused s s' ->
  frozen s s' /\ paused (loc s') = true.
Proof.
  intros Hp R. induction R as [s|s bs cs s' s'' E Hp' R IH].
  - split; [apply frozen_refl|assumption].
  - destruct (IH Hp') as [F Hp'']. split; [|assumption].
    assert (F0 : frozen s (arrive bs cs s)) by (constructor; cbn; auto).
    pose proof (loop_body_stays_paused (arrive bs cs s) Hp) as F1.
    rewrite E in F1. cbn [snd] in F1.
    eapply frozen_trans; [exact F0|].
    eapply frozen_trans; [apply F1; assumption|exact F].
Qed.

End EpisodeFacts.

Section PausedConsumption.

Context {B : Type} `{G : Game B}.

(** C10 (as amended).  In a pass that starts paused, pending input is
    consumed.  A pending button is taken from its queue and nothing else
    comes of it: the pass goes on, no call is made, board, score and the
    locals are as before, and the serial buffer is not touched.  With no
    button pending, a pending serial byte is taken from the buffer and run
    through the decoder: ESC read by an idle decoder moves it to 1, '['
    read after ESC moves it to 2, every other byte leaves it idle; the byte
    ends the pause exactly when it is 'p' or 'P' and not the last byte of an
    escape sequence.  A tilt beyond a threshold whose window has elapsed
    stamps the debounce timestamp with a value read from the clock during
    the pass, unless a button or cursor key of the same direction has its
    gate skipped.  A pass that leaves the game paused changes neither the
    record of calls nor board, score, [last_drop_time] or [paused_time], and
    a pass that ends the pause leaves the decoder idle: what was consumed
    during the pause has no effect afterwards. *)
Theorem paused_input_consumed (s : state B) (Hp : paused (loc s) = true) :
  let i := fst (check_for_input (sampled s)) in
  let n := characters_into_escape_sequence (loc s) in
  let s' := snd (loop_body s) in
  let n' := characters_into_escape_sequence (loc s') in
  (forall b rest, button_queue (hw s) = b :: rest -> b <> -1 ->
     fst (loop_body s) = Continue /\
     button_queue (hw s') = rest /\
     serial_buffer (hw s') = serial_buffer (hw s) /\
     calls s' = calls s /\ board s' = board s /\ sc s' = sc s /\
     loc s' = loc s) /\
  (forall c rest, button_queue (hw s) = [] -> serial_buffer (hw s) = c :: rest ->
     serial_buffer (hw s') = rest /\
     (n = 0 -> to_char c = ESCAPE_CHAR -> n' = 1) /\
     (n = 1 -> to_char c = chr "[" -> n' = 2) /\
     (~ (n = 0 /\ to_char c = ESCAPE_CHAR) ->
      ~ (n = 1 /\ to_char c = chr "[") -> n' = 0) /\
     (paused (loc s') = false <->
      n <> 2 /\ (to_char c = chr "p" \/ to_char c = chr "P"))) /\
  (tilt_evaluated i (sampled s) -> stamped s s') /\
  (paused (loc s') = true -> frozen s s') /\
  (paused (loc s') = false -> n' = 0).
Proof.
  intros i n s' n'.
  pose proof (loop_body_paused s Hp) as LB. cbv zeta in LB.
  destruct (loop_body_paused_frame s Hp) as (Fb & Fs & Fc & Fj & Fr).
  pose proof (prepared_checked s) as P.
  destruct (check_for_input_prepared (sampled s)) as [_ J].
  destruct (sampled_queues s) as (Sb & Ss & Sc).
  fold i in LB, Fb, Fs, Fc, Fj, Fr. fold s' in Fb, Fs, Fc, Fj, Fr.
  set (s1 := snd (check_for_input (sampled s))) in *.
  pose proof (poll_gates_polled i s1) as Q.
  destruct (held_same (poll_gates i s1)) as (Hc & Hb & Hs & Hl & _).
  assert (Hp4 : paused (loc (poll_gates i s1)) = true).
  { now rewrite (polled_loc _ _ Q), (prepared_paused _ _ P). }
  assert (R : paused (loc s') = false <->
              (serial_input i =? chr "p") || (serial_input i =? chr "P") = true).
  { subst s'. rewrite LB.
    destruct ((serial_input i =? chr "p") || (serial_input i =? chr "P")).
    - rewrite (acted_paused _ _ (acted_timer _)).
      destruct (toggle_pause_resumes _ Hp4) as (L & _). rewrite L. tauto.
    - cbn [snd]. rewrite Hl, Hp4. split; discriminate. }
  split; [|split; [|split; [|split]]].
  - (* button *)
    intros b rest Qb Nb.
    destruct (check_for_input_button (sampled s) b rest) as (I & Eb & Es & L);
      [congruence|assumption|].
    fold i in I. fold s1 in Eb, Es, L.
    assert (K : (serial_input i =? chr "p") || (serial_input i =? chr "P") = false)
      by (rewrite I; reflexivity).
    rewrite K in LB. subst s'. rewrite LB. cbn [fst snd].
    rewrite Hc, Hb, Hs, Hl.
    rewrite (polled_calls _ _ Q), (polled_board _ _ Q), (polled_sc _ _ Q),
      (polled_loc _ _ Q), L.
    rewrite LB in Fb, Fs. cbn [snd] in Fb, Fs.
    repeat split; try congruence.
    + apply (prepared_calls _ _ P).
    + apply (prepared_board _ _ P).
    + apply (prepared_sc _ _ P).
  - (* serial: the byte is read *)
    intros c rest Qb Qs.
    destruct (check_for_input_serial (sampled s) c rest) as (I & _ & Es & Ec);
      [congruence|congruence|].
    fold i in I. fold s1 in Es, Ec. rewrite Sc in I, Ec. fold n in I, Ec.
    assert (En : n' = fst (fst (escape_sequence_step n (to_char c)))).
    { subst n'. now rewrite Fc. }
    assert (Ei : serial_input i = snd (fst (escape_sequence_step n (to_char c)))).
    { now rewrite I. }
    split; [congruence|]. clear I Ec.
    unfold escape_sequence_step in En, Ei.
    split; [|split; [|split]].
    + intros N0 C0. rewrite N0, C0 in En. exact En.
    + intros N1 C1. rewrite N1, C1 in En. exact En.
    + intros N0 N1.
      destruct (Z.eqb_spec n 0); destruct (Z.eqb_spec (to_char c) ESCAPE_CHAR);
        destruct (Z.eqb_spec n 1); destruct (Z.eqb_spec (to_char c) (chr "["));
        destruct (Z.eqb_spec n 2); cbn [andb fst] in En; tauto.
    + rewrite R, pause_keys, Ei.
      change (chr "p") with 112. change (chr "P") with 80.
      change (chr "[") with 91. change ESCAPE_CHAR with 27.
      destruct (Z.eqb_spec n 0); destruct (Z.eqb_spec (to_char c) 27);
        destruct (Z.eqb_spec n 1); destruct (Z.eqb_spec (to_char c) 91);
        destruct (Z.eqb_spec n 2); cbn [andb fst snd]; split; intros; lia.
  - (* joystick *)
    intros T.
    assert (St : stamped s1 (poll_gates i s1)).
    { apply poll_gates_stamps_evaluated.
      unfold tilt_evaluated, window_elapsed in *. fold s1 in J. rewrite J.
      rewrite (prepared_ticks _ _ P), (prepared_reads _ _ P).
      pose proof (prepared_sampled s) as P0.
      rewrite (prepared_ticks _ _ P0), (prepared_reads _ _ P0) in T. exact T. }
    destruct St as (k & Hk & E).
    exists k. rewrite (prepared_reads _ _ P), (prepared_ticks _ _ P) in *.
    split; [lia|]. rewrite Fj. exact E.
  - (* the pause goes on *)
    now apply loop_body_stays_paused.
  - (* the end of the pause *)
    intros R'. subst n'. rewrite Fc. apply check_for_input_plain. fold i.
    apply R in R'. apply pause_keys in R'. unfold chr in R'. cbn in R'. lia.
Qed.

End PausedConsumption.

Section EpisodeTheorem.

Context {B : Type} `{G : Game B}.

Lemma loop_body_finish (s : state B) :
  loop_body s
  = finish (process_input (fst (check_for_input (sampled s)))
                          (snd (check_for_input (sampled s)))).
Proof.
  unfold loop_body, finish. fold (sampled s).
  now destruct (check_for_input (sampled s)).
Qed.

Lemma finish_acted (s : state B) r :
  acted s (snd r) -> acted s (snd (finish r)).
Proof.
  destruct r as [[|] s']; cbn [finish snd]; intros A; [|exact A].
  eapply acted_trans; [exact A|apply acted_timer].
Qed.

(** The only way into the pause: the toggle, taken in a running game; the
    timer is then not acted upon in the same pass. *)
Lemma loop_body_pauses (s : state B) :
  paused (loc s) = false -> paused (loc (snd (loop_body s))) = true ->
  exists s4, frozen s s4 /\ paused (loc s4) = false /\
             loop_body s = (Continue, held (toggle_pause s4)).
Proof.
  intros Hp Hp'. rewrite loop_body_finish in *.
  set (i := fst (check_for_input (sampled s))) in *.
  set (s1 := snd (check_for_input (sampled s))) in *.
  pose proof (prepared_checked s) as P. fold s1 in P.
  destruct (process_input_shape i s1) as (s4 & Q & Br).
  assert (Hp4 : paused (loc s4) = false)
    by (now rewrite (polled_loc _ _ Q), (prepared_paused _ _ P)).
  assert (No : forall r, acted s4 (snd r) -> process_input i s1 = r -> False).
  { intros r A E. rewrite E in Hp'.
    rewrite (acted_paused _ _ (finish_acted _ _ A)) in Hp'. congruence. }
  inversion Br as [H0 E|H0 E|H0 E|H0 E|H0 K E|K E|K1 K2 E]; symmetry in E.
  - exfalso. eapply No; [|exact E]. apply acted_move.
  - exfalso. eapply No; [|exact E]. apply acted_move.
  - exfalso. eapply No; [|exact E]. apply acted_rotation.
  - exfalso. eapply No; [|exact E]. apply acted_drop_one_row_or_fix.
  - exfalso. eapply No; [|exact E]. apply acted_drop_from_height.
  - exists s4. split; [|split; [assumption|]].
    + constructor.
      * rewrite (polled_calls _ _ Q). apply (prepared_calls _ _ P).
      * rewrite (polled_board _ _ Q). apply (prepared_board _ _ P).
      * rewrite (polled_sc _ _ Q). apply (prepared_sc _ _ P).
      * rewrite (polled_loc _ _ Q). apply (prepared_ldt _ _ P).
      * rewrite (polled_loc _ _ Q). apply (prepared_paused_time _ _ P).
      * rewrite (polled_ticks _ _ Q). apply (prepared_ticks _ _ P).
      * pose proof (polled_reads _ _ Q). rewrite (prepared_reads _ _ P) in *. lia.
    + cbn [finish]. apply timer_paused.
      destruct (toggle_pause_pauses s4 Hp4) as (L & _). now rewrite L.
  - exfalso. eapply No; [|exact E]. apply acted_refl.
Qed.

(** The only way out of the pause: the toggle, taken in a paused game; the
    timer is looked at in the same pass, after [last_drop_time] has been
    moved. *)
Lemma loop_body_resumes (s : state B) :
  paused (loc s) = true -> paused (loc (snd (loop_body s))) = false ->
  let g := poll_gates (fst (check_for_input (sampled s)))
                      (snd (check_for_input (sampled s))) in
  frozen s g /\ paused (loc g) = true /\
  loop_body s = timer_related_events (toggle_pause g).
Proof.
  intros Hp Hp'. pose proof (loop_body_paused s Hp) as LB. cbv zeta in LB.
  set (i := fst (check_for_input (sampled s))) in *.
  set (s4 := poll_gates i (snd (check_for_input (sampled s)))) in *.
  pose proof (frozen_polled_checked s i) as F. fold s4 in F.
  assert (Hp4 : paused (loc s4) = true).
  { subst s4. rewrite (polled_loc _ _ (poll_gates_polled _ _)).
    now rewrite (prepared_paused _ _ (prepared_checked s)). }
  split; [assumption|]. split; [assumption|].
  destruct ((serial_input i =? chr "p") || (serial_input i =? chr "P"));
    [exact LB|].
  exfalso. rewrite LB in Hp'. cbn in Hp'. congruence.
Qed.

Lemma shifted_deadline L T1 T2 rows :
  0 <= L + (T2 - T1) + (600 - 30 * rows) < 2 ^ 32 ->
  uint32 (uint32 (L + uint32 (T2 - T1)) + (600 - rows * 30))
  = L + (600 - 30 * rows) + (T2 - T1).
Proof.
  intros H. rewrite uint32_add_l, <- Z.add_assoc, (Z.add_comm (uint32 _)),
    Z.add_assoc, uint32_add_r.
  rewrite <- (uint32_small (L + (600 - 30 * rows) + (T2 - T1))) by lia.
  f_equal. lia.
Qed.

End EpisodeTheorem.

Section PauseEpisode.

Context {B : Type} `{G : Game B}.

(** C4.  Take a pass that pauses the running game, any run of passes through
    which it stays paused, and a pass that ends the pause.  Then the pause
    was entered at a clock reading [T1] of the first pass, kept in
    [paused_time]; through the pause no call was made and board, score and
    [last_drop_time] (call it [L]) did not change; and the last pass looks
    at the timer in a state [t] that is running again, with no call made
    yet, in which [last_drop_time] is [L] moved on by exactly [T2 - T1],
    [T2] being a clock reading taken in that last pass.  So, as long as
    nothing wraps, the timer-driven drop is due from then on exactly when
    the clock has reached [L + interval + (T2 - T1)]. *)
Theorem pause_shifts_last_drop_time (s0 s2 : state B) (bs cs : list Z)
    (Hrun : paused (loc s0) = false)
    (Hpause : paused (loc (snd (loop_body s0))) = true)
    (Hstay : stays_paused (snd (loop_body s0)) s2)
    (Hresume : paused (loc (snd (loop_body (arrive bs cs s2)))) = false) :
  let s1 := snd (loop_body s0) in
  let L := last_drop_time (loc s0) in
  let rows := Score.get_cleared_rows (sc s0) in
  let T1 := paused_time (loc s1) in
  let r := arrive bs cs s2 in
  let g := poll_gates (fst (check_for_input (sampled r)))
                      (snd (check_for_input (sampled r))) in
  let T2 := next_tick g in
  let t := toggle_pause g in
  fst (loop_body s0) = Continue /\
  (exists k1, (reads (hw s0) <= k1 < reads (hw s1))%nat /\
              T1 = ticks (hw s0) k1) /\
  (exists k2, (reads (hw s1) <= k2 < reads (hw t))%nat /\
              T2 = ticks (hw s0) k2) /\
  paused_time (loc s2) = T1 /\
  last_drop_time (loc s2) = L /\
  calls s2 = calls s0 /\ board s2 = board s0 /\ sc s2 = sc s0 /\
  loop_body r = timer_related_events t /\
  paused (loc t) = false /\
  last_drop_time (loc t) = uint32 (L + uint32 (T2 - T1)) /\
  calls t = calls s0 /\ board t = board s0 /\ sc t = sc s0 /\
  (0 <= L + (T2 - T1) + (600 - 30 * rows) < 2 ^ 32 ->
   forall now,
     timer_drop_due now (last_drop_time (loc t))
                    (Score.get_cleared_rows (sc t)) (paused (loc t)) = true
     <-> L + (600 - 30 * rows) + (T2 - T1) <= now).
Proof.
  intros s1 L rows T1 r g T2 t.
  destruct (loop_body_pauses s0 Hrun Hpause) as (a & Fa & Pa & Ea).
  destruct (toggle_pause_pauses a Pa) as (La & Ca & Ba & Sa & _ & Ha).
  assert (E1 : s1 = held (toggle_pause a)) by (subst s1; now rewrite Ea).
  destruct (held_same (toggle_pause a)) as (Hc & Hb' & Hs & Hl & _).
  assert (C1 : calls s1 = calls s0)
    by (rewrite E1, Hc, Ca; apply (frozen_calls _ _ Fa)).
  assert (B1 : board s1 = board s0)
    by (rewrite E1, Hb', Ba; apply (frozen_board _ _ Fa)).
  assert (S1 : sc s1 = sc s0)
    by (rewrite E1, Hs, Sa; apply (frozen_sc _ _ Fa)).
  assert (L1 : last_drop_time (loc s1) = L)
    by (rewrite E1, Hl, La; apply (frozen_ldt _ _ Fa)).
  assert (T1a : T1 = ticks (hw s0) (reads (hw a))).
  { subst T1. rewrite E1, Hl, La. cbn. unfold next_tick.
    now rewrite (frozen_ticks _ _ Fa). }
  assert (K1 : ticks (hw s1) = ticks (hw s0)).
  { rewrite E1. cbn [held get_clock_ticks snd set_hw hw ticks]. rewrite Ha.
    cbn. apply (frozen_ticks _ _ Fa). }
  assert (R1 : reads (hw s1) = S (S (reads (hw a)))).
  { rewrite E1. cbn [held get_clock_ticks snd set_hw hw reads]. rewrite Ha.
    reflexivity. }
  destruct (stays_paused_frozen s1 s2 Hpause Hstay) as [F2 P2].
  assert (P2' : paused (loc r) = true) by exact P2.
  destruct (loop_body_resumes r P2' Hresume) as (Fb & Pb & Eb). fold g in Fb, Pb, Eb.
  destruct (toggle_pause_resumes g Pb) as (Lb & Cb & Bb & Sb & _ & Hb).
  assert (F2b : frozen s2 g).
  { eapply frozen_trans; [|exact Fb]. constructor; cbn; auto. }
  assert (F1b : frozen s1 g) by (eapply frozen_trans; eassumption).
  assert (Ldt : last_drop_time (loc t) = uint32 (L + uint32 (T2 - T1))).
  { subst t. rewrite Lb. cbn [last_drop_time].
    rewrite (frozen_ldt _ _ F1b), (frozen_paused_time _ _ F1b), L1.
    reflexivity. }
  pose proof (frozen_reads _ _ Fa). pose proof (frozen_reads _ _ F1b).
  repeat match goal with |- _ /\ _ => split end.
  - now rewrite Ea.
  - exists (reads (hw a)). split; [lia|exact T1a].
  - exists (reads (hw g)). split.
    + subst t. rewrite Hb. cbn. lia.
    + subst T2. unfold next_tick. now rewrite (frozen_ticks _ _ F1b), K1.
  - apply (frozen_paused_time _ _ F2).
  - rewrite (frozen_ldt _ _ F2). exact L1.
  - rewrite (frozen_calls _ _ F2). exact C1.
  - rewrite (frozen_board _ _ F2). exact B1.
  - rewrite (frozen_sc _ _ F2). exact S1.
  - exact Eb.
  - subst t. now rewrite Lb.
  - exact Ldt.
  - subst t. rewrite Cb, (frozen_calls _ _ F1b). exact C1.
  - subst t. rewrite Bb, (frozen_board _ _ F1b). exact B1.
  - subst t. rewrite Sb, (frozen_sc _ _ F1b). exact S1.
  - intros W now. rewrite Ldt. subst t. rewrite Sb, (frozen_sc _ _ F1b), S1, Lb.
    cbn [paused]. fold rows. unfold timer_drop_due.
    rewrite shifted_deadline by exact W.
    rewrite andb_true_r. apply Z.leb_le.
Qed.

End PauseEpisode.

(** A pause entered at tick 1200 and left at tick 5000, with a space
    arriving in between: [last_drop_time] goes from 1000 to 4800, and the
    pass that ends the pause makes no call. *)
Lemma pause_shifts_last_drop_time_witness :
  let s0 := toy_state (clock_of [1200; 1200; 3000; 5000; 5000])
                      [] [chr "p"] 500 500 0 (running 1000) 0 in
  let s1 := snd (loop_body s0) in
  let s2 := snd (loop_body (arrive [] [chr " "] s1)) in
  let r := arrive [] [chr "p"] s2 in
  let t := toggle_pause
             (poll_gates (fst (check_for_input (sampled r)))
                         (snd (check_for_input (sampled r)))) in
  paused_time (loc s2) = 1200 /\
  loop_body r = timer_related_events t /\
  last_drop_time (loc t) = 4800 /\
  calls (snd (loop_body r)) = [].
Proof.
  intros s0 s1 s2 r t.
  assert (Hstay : stays_paused s1 s2).
  { apply (stays_on s1 [] [chr " "] s2 s2); [|reflexivity|apply stays_here].
    vm_compute. reflexivity. }
  destruct (pause_shifts_last_drop_time s0 s2 [] [chr "p"]
              eq_refl eq_refl Hstay eq_refl)
    as (_ & _ & _ & T & _ & _ & _ & _ & E & _ & L & _).
  split; [exact T|split; [exact E|split; [exact L|reflexivity]]].
Defined.

(** ** The chain with the stick at rest *)

Section RestFacts.

Context {B : Type} `{G : Game B}.


End RestFacts.

Section MoveFacts.

Context {B : Type} `{G : Game B}.

Lemma move_same m (s : state B) :
  let s' := snd (do_attempt_move m s) in
  hw s' = hw s /\ sc s' = sc s /\ joy s' = joy s /\ loc s' = loc s /\
  calls s' = calls s ++ [CallMove m (fst (attempt_move m (board s)))].
Proof.
  unfold do_attempt_move. destruct (attempt_move m (board s)). repeat split.
Qed.

End MoveFacts.

(** ** The queues through a pass *)

Section ButtonFacts.

Context {B : Type} `{G : Game B}.

(** Acting on the input touches neither queue nor the decoder state. *)
Lemma process_input_queues (i : input) (s : state B) :
  button_queue (hw (snd (process_input i s))) = button_queue (hw s) /\
  serial_buffer (hw (snd (process_input i s))) = serial_buffer (hw s) /\
  characters_into_escape_sequence (loc (snd (process_input i s)))
  = characters_into_escape_sequence (loc s).
Proof.
  destruct (process_input_shape i s) as (s1 & Q & Br).
  assert (A : forall r : flow * state B, acted s1 (snd r) ->
    button_queue (hw (snd r)) = button_queue (hw s) /\
    serial_buffer (hw (snd r)) = serial_buffer (hw s) /\
    characters_into_escape_sequence (loc (snd r))
    = characters_into_escape_sequence (loc s)).
  { intros r A. rewrite (acted_buttons _ _ A), (acted_serial _ _ A),
      (acted_count _ _ A), (polled_buttons _ _ Q), (polled_serial _ _ Q),
      (polled_loc _ _ Q). repeat split. }
  inversion Br as [H0 E|H0 E|H0 E|H0 E|H0 K E|K E|K1 K2 E]; rewrite <- ?E.
  - apply A, acted_move.
  - apply A, acted_move.
  - apply A, acted_rotation.
  - apply A, acted_drop_one_row_or_fix.
  - apply A, acted_drop_from_height.
  - cbn [snd]. unfold toggle_pause.
    destruct (paused (loc s1)); cbn;
      rewrite (polled_buttons _ _ Q), (polled_serial _ _ Q), (polled_loc _ _ Q);
      repeat split.
  - apply A, acted_refl.
Qed.

Lemma loop_body_queues (s : state B) :
  let s1 := snd (check_for_input (sampled s)) in
  button_queue (hw (snd (loop_body s))) = button_queue (hw s1) /\
  serial_buffer (hw (snd (loop_body s))) = serial_buffer (hw s1) /\
  characters_into_escape_sequence (loc (snd (loop_body s)))
  = characters_into_escape_sequence (loc s1).
Proof.
  intros s1. rewrite loop_body_finish. fold s1.
  set (i := fst (check_for_input (sampled s))).
  destruct (process_input_queues i s1) as (Qb & Qs & Qc).
  pose proof (finish_acted (snd (process_input i s1)) (process_input i s1)
                (acted_refl _)) as A.
  rewrite (acted_buttons _ _ A), (acted_serial _ _ A), (acted_count _ _ A).
  repeat split; assumption.
Qed.

End ButtonFacts.

(** ** Escape sequences *)

Section EscapePasses.

Context {B : Type} `{G : Game B}.

(** A pass whose input check leaves nothing in [serial_input] does not
    touch the pause flag. *)
Lemma loop_body_keeps_pause (s : state B) :
  serial_input (fst (check_for_input (sampled s))) = -1 ->
  paused (loc (snd (loop_body s))) = paused (loc s).
Proof.
  intros N. rewrite loop_body_finish.
  set (i := fst (check_for_input (sampled s))) in *.
  set (s1 := snd (check_for_input (sampled s))).
  pose proof (prepared_checked s) as P. fold s1 in P.
  destruct (process_input_shape i s1) as (s1' & Q & Br).
  assert (A : acted s1' (snd (process_input i s1))).
  { inversion Br as [H0 E|H0 E|H0 E|H0 E|H0 K E|K E|K1 K2 E]; rewrite <- ?E.
    - apply acted_move.
    - apply acted_move.
    - apply acted_rotation.
    - apply acted_drop_one_row_or_fix.
    - apply acted_drop_from_height.
    - exfalso. rewrite N in K. destruct K; discriminate.
    - apply acted_refl. }
  pose proof (finish_acted s1' (process_input i s1) A) as A'.
  rewrite (acted_paused _ _ A'), (polled_loc _ _ Q).
  apply (prepared_paused _ _ P).
Qed.

(** A pass that reads a byte, with no button pending. *)
Lemma loop_body_reads_byte (s : state B) c rest :
  button_queue (hw s) = [] -> serial_buffer (hw s) = c :: rest ->
  let r := escape_sequence_step (characters_into_escape_sequence (loc s))
                                (to_char c) in
  fst (check_for_input (sampled s)) = mkInput (-1) (snd (fst r)) (snd r) /\
  characters_into_escape_sequence (loc (snd (check_for_input (sampled s))))
  = fst (fst r) /\
  serial_buffer (hw (snd (check_for_input (sampled s)))) = rest /\
  button_queue (hw (snd (loop_body s))) = [] /\
  serial_buffer (hw (snd (loop_body s))) = rest /\
  characters_into_escape_sequence (loc (snd (loop_body s))) = fst (fst r).
Proof.
  intros Hb Hs r.
  destruct (check_for_input_serial (sampled s) c rest Hb Hs) as (I & Qb & Qs & Qc).
  change (characters_into_escape_sequence (loc (sampled s)))
    with (characters_into_escape_sequence (loc s)) in I, Qc.
  fold r in I, Qc.
  destruct (loop_body_queues s) as (Lb & Ls & Lc).
  repeat split; congruence.
Qed.

(** A completed sequence whose last byte is none of the four cursor keys is
    acted on like no input at all. *)
Lemma process_input_unrecognised c (s : state B) :
  c <> chr "A" -> c <> chr "B" -> c <> chr "C" -> c <> chr "D" ->
  process_input (mkInput (-1) (-1) c) s
  = process_input (mkInput (-1) (-1) (-1)) s.
Proof.
  intros NA NB NC ND. apply Z.eqb_neq in NA, NB, NC, ND.
  unfold process_input. cbn [button escape_sequence_char serial_input].
  rewrite NA, NB, NC, ND. reflexivity.
Qed.

End EscapePasses.

Section EscapeDecoding.

Context {B : Type} `{G : Game B}.

(** C5 (as amended).  With no button pending and the decoder idle, the
    bytes of an escape sequence are read one per pass, in three successive
    passes (which are the passes of the loop when none of them ends the
    game).  ESC and '[' are consumed and hand the chain no input;
    the third byte is handed on as [escape_sequence_char] and leaves the
    decoder idle.  When that byte is 'D', a running game makes for it
    exactly the call [attempt_move(MOVE_LEFT)], whatever the joystick
    reads; when it is none of 'A', 'B', 'C', 'D', the pass acts as it would
    on no input at all.  After ESC a byte other than '[' resets the decoder
    and stays in [serial_input] like a byte outside any sequence: in a
    running game the same pass checks it against the space (drop from
    height) and against 'p' and 'P' (pause) unless a joystick gate fires
    first, in which case the command is the gate's and the byte is lost; in
    a paused game only the check against 'p' and 'P' is made. *)
Theorem escape_sequence_decoding (s : state B) (c : Z) (rest : list Z)
    (Hb : button_queue (hw s) = [])
    (Hc : characters_into_escape_sequence (loc s) = 0) :
  let none := mkInput (-1) (-1) (-1) in
  (serial_buffer (hw s) = ESCAPE_CHAR :: chr "[" :: c :: rest ->
   let s1 := snd (loop_body s) in
   let s2 := snd (loop_body s1) in
   let i3 := fst (check_for_input (sampled s2)) in
   let s3 := snd (check_for_input (sampled s2)) in
   (fst (loop_body s) = Continue -> fst (loop_body s1) = Continue ->
    game_loop 3 s = game_loop 1 s2) /\
   fst (check_for_input (sampled s)) = none /\
   characters_into_escape_sequence (loc s1) = 1 /\
   fst (check_for_input (sampled s1)) = none /\
   characters_into_escape_sequence (loc s2) = 2 /\
   paused (loc s2) = paused (loc s) /\
   i3 = mkInput (-1) (-1) (to_char c) /\
   characters_into_escape_sequence (loc (snd (loop_body s2))) = 0 /\
   serial_buffer (hw (snd (loop_body s2))) = rest /\
   (to_char c = chr "D" -> paused (loc s) = false ->
    process_input i3 s3 = (Continue, snd (do_attempt_move MOVE_LEFT s3)) /\
    calls (snd (process_input i3 s3))
    = calls s2
      ++ [CallMove MOVE_LEFT (fst (attempt_move MOVE_LEFT (board s2)))]) /\
   (to_char c <> chr "A" -> to_char c <> chr "B" ->
    to_char c <> chr "C" -> to_char c <> chr "D" ->
    process_input i3 s3 = process_input none s3)) /\
  (serial_buffer (hw s) = ESCAPE_CHAR :: c :: rest ->
   to_char c <> chr "[" ->
   let s1 := snd (loop_body s) in
   let i := fst (check_for_input (sampled s1)) in
   let s2 := snd (check_for_input (sampled s1)) in
   fst (check_for_input (sampled s)) = none /\
   characters_into_escape_sequence (loc s1) = 1 /\
   i = mkInput (-1) (to_char c) (-1) /\
   characters_into_escape_sequence (loc s2) = 0 /\
   serial_buffer (hw s2) = rest /\
   (paused (loc s) = false ->
    exists s', polled s2 s' /\
      process_input i s2
      = perform (if left_fires s2 then MoveLeft
                 else if right_fires s2 then MoveRight
                 else if up_fires s2 then Rotate
                 else if down_fires s2 then SoftDrop
                 else if to_char c =? chr " " then HardDrop
                 else if (to_char c =? chr "p") || (to_char c =? chr "P")
                      then TogglePause
                      else NoCommand) s') /\
   (paused (loc s) = true ->
    process_input i s2
    = (Continue,
       if (to_char c =? chr "p") || (to_char c =? chr "P")
       then toggle_pause (poll_gates i s2) else poll_gates i s2))).
Proof.
  intros none. split.
  - intros Hs s1 s2 i3 s3.
    assert (Es2 : s2 = snd (loop_body s1)) by reflexivity.
    assert (L : fst (loop_body s) = Continue -> fst (loop_body s1) = Continue ->
                game_loop 3 s = game_loop 1 s2).
    { intros Go1 Go2. subst s2 s1. cbn [game_loop].
      destruct (loop_body s) as [[|] x]; cbn [fst snd] in *; [|discriminate].
      destruct (loop_body x) as [[|] y]; cbn [fst snd] in *; [|discriminate].
      reflexivity. }
    destruct (loop_body_reads_byte s _ _ Hb Hs) as (I1 & _ & _ & B1 & S1 & C1).
    rewrite Hc in I1, C1.
    change (escape_sequence_step 0 (to_char ESCAPE_CHAR)) with (1, -1, -1)
      in I1, C1.
    cbn [fst snd] in I1, C1. fold s1 in B1, S1, C1.
    destruct (loop_body_reads_byte s1 _ _ B1 S1) as (I2 & _ & _ & B2 & S2 & C2).
    rewrite C1 in I2, C2.
    change (escape_sequence_step 1 (to_char (chr "["))) with (2, -1, -1)
      in I2, C2.
    cbn [fst snd] in I2, C2. rewrite <- Es2 in B2, S2, C2.
    destruct (loop_body_reads_byte s2 _ _ B2 S2) as (I3 & _ & _ & B3 & S3 & C3).
    rewrite C2 in I3, C3.
    change (escape_sequence_step 2 (to_char c)) with (0, -1, to_char c)
      in I3, C3.
    cbn [fst snd] in I3, C3. fold i3 in I3.
    pose proof (prepared_checked s2) as P. fold s3 in P.
    assert (K : paused (loc s2) = paused (loc s)).
    { rewrite Es2, loop_body_keeps_pause by (now rewrite I2).
      apply loop_body_keeps_pause. now rewrite I1. }
    repeat (split; [first [assumption|reflexivity]|]).
    split.
    + intros D Hp. rewrite I3, D. unfold process_input.
      cbn [button escape_sequence_char]. rewrite Z.eqb_refl, orb_true_r.
      cbn [or_else]. rewrite (prepared_paused _ _ P), K, Hp. cbn [andb negb].
      rewrite perform_move. split; [reflexivity|]. cbn [snd].
      rewrite do_attempt_move_calls, (prepared_calls _ _ P),
        (prepared_board _ _ P). reflexivity.
    + intros NA NB NC ND. rewrite I3.
      now apply process_input_unrecognised.
  - intros Hs N s1 i s2.
    destruct (loop_body_reads_byte s _ _ Hb Hs) as (I1 & _ & _ & B1 & S1 & C1).
    rewrite Hc in I1, C1.
    change (escape_sequence_step 0 (to_char ESCAPE_CHAR)) with (1, -1, -1)
      in I1, C1.
    cbn [fst snd] in I1, C1. fold s1 in B1, S1, C1.
    destruct (loop_body_reads_byte s1 _ _ B1 S1) as (I2 & C2 & S2 & _).
    rewrite C1 in I2, C2.
    assert (A : escape_sequence_step 1 (to_char c) = (0, to_char c, -1)).
    { unfold escape_sequence_step. apply Z.eqb_neq in N. rewrite N. reflexivity. }
    rewrite A in I2, C2. cbn [fst snd] in I2, C2.
    fold i in I2. fold s2 in C2, S2.
    pose proof (prepared_checked s1) as P. fold s2 in P.
    assert (K : paused (loc s1) = paused (loc s)).
    { apply loop_body_keeps_pause. now rewrite I1. }
    repeat (split; [first [assumption|reflexivity]|]).
    split.
    + intros Hp.
      destruct (process_input_chosen i s2) as (s' & Q & E);
        [now rewrite (prepared_paused _ _ P), K|].
      exists s'. split; [exact Q|]. rewrite E. f_equal.
      unfold chosen. rewrite I2.
      cbn [button escape_sequence_char serial_input]. absent_input.
      cbn [orb]. reflexivity.
    + intros Hp. rewrite process_input_paused_eq
        by (now rewrite (prepared_paused _ _ P), K).
      rewrite I2. reflexivity.
Qed.

End EscapeDecoding.

(** ** Buttons *)

Section ButtonPrecedence.

Context {B : Type} `{G : Game B}.

(** C6 (as amended).  In a pass with a button pending, the button is taken
    from its queue and the serial branch is skipped: at the end of the pass
    the serial buffer and the decoder state are as they were, so a pending
    byte stays queued.  The joystick gates are not skipped.  In a running
    game the pass carries out the button's command -- button 3 moves left,
    button 0 moves right, button 2 rotates, button 1 drops from height --
    unless a gate of an earlier branch of the chain fires first: none for
    button 3, [is_left] for button 0, [is_left] or [is_right] for button 2,
    any of the four for button 1.  When such a gate fires, the command is
    that gate's. *)
Theorem button_before_serial (s : state B) (b : Z) (rest : list Z)
    (Hq : button_queue (hw s) = b :: rest) (Hb : b <> -1) :
  let i := fst (check_for_input (sampled s)) in
  let s1 := snd (check_for_input (sampled s)) in
  i = mkInput b (-1) (-1) /\
  button_queue (hw (snd (loop_body s))) = rest /\
  serial_buffer (hw (snd (loop_body s))) = serial_buffer (hw s) /\
  characters_into_escape_sequence (loc (snd (loop_body s)))
  = characters_into_escape_sequence (loc s) /\
  (paused (loc s) = false ->
   (b = 3 ->
    calls (snd (process_input i s1))
    = calls s ++ [CallMove MOVE_LEFT (fst (attempt_move MOVE_LEFT (board s)))]) /\
   (b = 0 -> left_fires s1 = false ->
    calls (snd (process_input i s1))
    = calls s ++ [CallMove MOVE_RIGHT (fst (attempt_move MOVE_RIGHT (board s)))]) /\
   (b = 2 -> left_fires s1 = false -> right_fires s1 = false ->
    calls (snd (process_input i s1))
    = calls s ++ [CallRotation (fst (attempt_rotation (board s)))]) /\
   (b = 1 -> left_fires s1 = false -> right_fires s1 = false ->
    up_fires s1 = false -> down_fires s1 = false ->
    exists s', polled s1 s' /\ process_input i s1 = drop_from_height s') /\
   exists s', polled s1 s' /\
     process_input i s1
     = perform (if b =? 3 then MoveLeft
                else if left_fires s1 then MoveLeft
                else if b =? 0 then MoveRight
                else if right_fires s1 then MoveRight
                else if b =? 2 then Rotate
                else if up_fires s1 then Rotate
                else if down_fires s1 then SoftDrop
                else if b =? 1 then HardDrop
                else NoCommand) s').
Proof.
  intros i s1.
  destruct (check_for_input_button (sampled s) b rest Hq Hb) as (I & Qb & Qs & Ql).
  fold i in I. fold s1 in Qb, Qs, Ql.
  destruct (loop_body_queues s) as (Lb & Ls & Lc). fold s1 in Lb, Ls, Lc.
  pose proof (prepared_checked s) as P. fold s1 in P.
  repeat (split; [first [exact I | congruence | now rewrite Ls, Qs
                        | now rewrite Lc, Ql]|]).
  intros Hp.
  destruct (process_input_chosen i s1) as (s' & Q & E);
    [now rewrite (prepared_paused _ _ P)|].
  assert (C : chosen i s1
              = if b =? 3 then MoveLeft
                else if left_fires s1 then MoveLeft
                else if b =? 0 then MoveRight
                else if right_fires s1 then MoveRight
                else if b =? 2 then Rotate
                else if up_fires s1 then Rotate
                else if down_fires s1 then SoftDrop
                else if b =? 1 then HardDrop
                else NoCommand).
  { unfold chosen. rewrite I.
    cbn [button escape_sequence_char serial_input]. absent_input.
    rewrite !orb_false_r. cbn [orb].
    destruct (b =? 3); [reflexivity|]. cbn [orb].
    destruct (left_fires s1); [reflexivity|].
    destruct (b =? 0); [reflexivity|]. cbn [orb].
    destruct (right_fires s1); [reflexivity|].
    destruct (b =? 2); [reflexivity|]. cbn [orb].
    destruct (up_fires s1); [reflexivity|].
    destruct (down_fires s1); reflexivity. }
  rewrite C in E. rewrite E.
  pose proof (prepared_calls _ _ P) as Pc. pose proof (prepared_board _ _ P) as Pb.
  pose proof (polled_calls _ _ Q) as Qc. pose proof (polled_board _ _ Q) as Qbd.
  split; [|split; [|split; [|split]]].
  - intros ->. cbn [Z.eqb Pos.eqb perform snd].
    rewrite do_attempt_move_calls. congruence.
  - intros -> L. rewrite L. cbn [Z.eqb Pos.eqb perform snd].
    rewrite do_attempt_move_calls. congruence.
  - intros -> L R. rewrite L, R. cbn [Z.eqb Pos.eqb perform snd].
    rewrite do_attempt_rotation_calls. congruence.
  - intros -> L R U D. rewrite L, R, U, D. cbn [Z.eqb Pos.eqb perform].
    exists s'. split; [exact Q|reflexivity].
  - exists s'. split; [exact Q|reflexivity].
Qed.

End ButtonPrecedence.

(** Button 0 and a space both pending, the stick held left with the window
    of [is_left] not yet elapsed: the gate is held back and the button's
    command is carried out. *)
Lemma button_before_serial_witness :
  let s := toy_state (clock_of [1100; 1100; 2000]) [0] [chr " "] 900 500 1000
                     (running 1000) 0 in
  let i := fst (check_for_input (sampled s)) in
  let s1 := snd (check_for_input (sampled s)) in
  serial_buffer (hw (snd (loop_body s))) = [chr " "] /\
  button_queue (hw (snd (loop_body s))) = [] /\
  calls (snd (process_input i s1)) = [CallMove MOVE_RIGHT true].
Proof.
  intros s i s1.
  destruct (button_before_serial s 0 [] eq_refl ltac:(discriminate))
    as (_ & Qb & Qs & _ & K).
  destruct (K eq_refl) as (_ & R & _).
  split; [exact Qs|split; [exact Qb|exact (R eq_refl eq_refl)]].
Defined.

(** C6 as stated fails: with button 0 (move right) and a space both pending
    and the stick held beyond 850, the pass calls [attempt_move(MOVE_LEFT)]
    for the joystick; the pushed button is gone and its command is not
    carried out.  (The space stays queued.) *)
Lemma joystick_overrides_button :
  let s := toy_state (fun _ => 1000) [0] [chr " "] 900 500 0 (running 1000) 0 in
  calls (snd (loop_body s)) = [CallMove MOVE_LEFT true] /\
  calls (snd (loop_body s)) <> [CallMove MOVE_RIGHT true] /\
  joystick_time (joy (snd (loop_body s))) = 1000 /\
  button_queue (hw (snd (loop_body s))) = [] /\
  serial_buffer (hw (snd (loop_body s))) = [chr " "].
Proof.
  cbv zeta. repeat split; try reflexivity. vm_compute. discriminate.
Qed.

(** ** Drops *)

Section DropFacts.

Context {B : Type} `{G : Game B}.

(** With more fuel than rows below the block, the loop of the drop from
    height ends by a failed drop: some successful drops, one failed drop,
    nothing else. *)
Lemma drop_until_failure_calls fuel (s : state B) :
  (rows_below (board s) < fuel)%nat ->
  exists n, (n <= rows_below (board s))%nat /\
    calls (drop_until_failure fuel s)
    = calls s ++ repeat (CallDrop true) n ++ [CallDrop false] /\
    loc (drop_until_failure fuel s) = loc s /\
    sc (drop_until_failure fuel s) = sc s /\
    hw (drop_until_failure fuel s) = hw s.
Proof.
  revert s. induction fuel as [|fuel IH]; intros s Hf; [lia|].
  cbn [drop_until_failure]. unfold do_attempt_drop_block_one_row.
  destruct (attempt_drop_block_one_row (board s)) as [ok b] eqn:E.
  destruct ok.
  - pose proof (drop_descends _ _ E) as D.
    destruct (IH (set_board b (CallDrop true) s)) as (n & Hn & C & L & Sc & H);
      [cbn; lia|].
    exists (S n). cbn in Hn. split; [lia|].
    rewrite C, L, Sc, H. cbn. rewrite <- app_assoc. repeat split.
  - exists 0%nat. split; [lia|]. repeat split.
Qed.

(** The drop from height: drops until one fails, then exactly one call of
    [fix_block_to_board_and_add_new_block], whose result decides whether the
    game goes on.  [last_drop_time] is not touched. *)
Lemma drop_from_height_calls (s : state B) :
  exists n ok, (n <= rows_below (board s))%nat /\
    calls (snd (drop_from_height s))
    = calls s ++ repeat (CallDrop true) n ++ [CallDrop false; CallFix ok] /\
    fst (drop_from_height s) = (if ok then Continue else GameOver) /\
    loc (snd (drop_from_height s)) = loc s.
Proof.
  unfold drop_from_height.
  destruct (drop_until_failure_calls (S (rows_below (board s))) s)
    as (n & Hn & C & L & Sc & H); [lia|].
  set (s1 := drop_until_failure (S (rows_below (board s))) s) in *.
  pose proof (do_fix_calls s1) as F.
  assert (L' : loc (snd (do_fix_block_to_board_and_add_new_block s1)) = loc s1).
  { unfold do_fix_block_to_board_and_add_new_block.
    now destruct (fix_block_to_board_and_add_new_block (board s1)) as [[? ?] ?]. }
  destruct (do_fix_block_to_board_and_add_new_block s1) as [ok s2].
  cbn [fst snd] in F, L'. exists n, ok. split; [assumption|].
  assert (C2 : calls s2
               = calls s ++ repeat (CallDrop true) n ++ [CallDrop false; CallFix ok]).
  { rewrite F, C, <- !app_assoc. reflexivity. }
  destruct ok; cbn [fst snd]; repeat split; congruence.
Qed.

(** The single drop, by contrast, ends by setting [last_drop_time] from the
    clock whenever the game goes on. *)
Lemma drop_one_row_or_fix_stamps (s : state B) :
  fst (drop_one_row_or_fix s) = Continue ->
  exists k, (reads (hw s) <= k)%nat /\
    last_drop_time (loc (snd (drop_one_row_or_fix s))) = ticks (hw s) k.
Proof.
  unfold drop_one_row_or_fix, do_attempt_drop_block_one_row.
  destruct (attempt_drop_block_one_row (board s)) as [ok b].
  destruct ok; cbn.
  - intros _. exists (reads (hw s)). split; [lia|reflexivity].
  - unfold do_fix_block_to_board_and_add_new_block. cbn.
    destruct (fix_block_to_board_and_add_new_block b) as [[ok' cs] b'].
    destruct ok'; cbn; [|discriminate].
    intros _. exists (reads (hw s)). split; [lia|reflexivity].
Qed.

End DropFacts.

(** C7.  Button 1 is pushed at tick 1600 in a game whose last drop was at
    tick 1000, with no rows cleared (interval 600).  Acting on the button
    drops the block from height -- two successful drops, a failed one, one
    fix -- and leaves [last_drop_time] at 1000; the timer of the same pass
    therefore finds the drop due and moves the block that has just been
    added down a row.  The manual drop and the timer-driven drop happen in
    one pass although the manual drop has not advanced [last_drop_time]. *)
Theorem drop_from_height_keeps_last_drop_time :
  let s := toy_state (fun _ => 1600) [1] [] 500 500 0 (running 1000) 0 in
  let i := fst (check_for_input (sampled s)) in
  let s1 := snd (check_for_input (sampled s)) in
  let s2 := snd (process_input i s1) in
  i = mkInput 1 (-1) (-1) /\
  calls s2 = [CallDrop true; CallDrop true; CallDrop false; CallFix true] /\
  last_drop_time (loc s2) = 1000 /\
  timer_drop_due 1600 (last_drop_time (loc s2))
                 (Score.get_cleared_rows (sc s2)) (paused (loc s2)) = true /\
  calls (snd (loop_body s))
  = [CallDrop true; CallDrop true; CallDrop false; CallFix true; CallDrop true] /\
  last_drop_time (loc (snd (loop_body s))) = 1600.
Proof. repeat split. Qed.

(** ** Concrete runs of the theorems above *)

(** The left cursor key with the stick held right: the first two passes
    move right for the joystick, the third moves left for the key. *)
Lemma escape_sequence_decoding_witness :
  let s := toy_state (clock_of [1000; 1000; 1000; 2000]) []
                     [ESCAPE_CHAR; chr "["; chr "D"] 100 500 0
                     (running 1900) 0 in
  let s2 := snd (loop_body (snd (loop_body s))) in
  let i3 := fst (check_for_input (sampled s2)) in
  let s3 := snd (check_for_input (sampled s2)) in
  i3 = mkInput (-1) (-1) (chr "D") /\
  characters_into_escape_sequence (loc (snd (loop_body s2))) = 0 /\
  calls (snd (process_input i3 s3))
  = [CallMove MOVE_RIGHT true; CallMove MOVE_RIGHT true;
     CallMove MOVE_LEFT true].
Proof.
  intros s s2 i3 s3.
  destruct (proj1 (escape_sequence_decoding s (chr "D") [] eq_refl eq_refl)
              eq_refl)
    as (_ & _ & _ & _ & _ & _ & I & C & _ & D & _).
  split; [exact I|split; [exact C|]].
  exact (proj2 (D eq_refl eq_refl)).
Defined.

(** C5 as stated fails.  With the stick held left, ESC and then a space: the
    second pass has the space in [serial_input], but [is_left] fires first,
    the pass moves left and the space is gone without the drop from height
    it asks for.  (With the stick at rest the same bytes give the drop.)
    And in a paused game ESC, '[', 'D' are consumed without a move. *)
Lemma escape_abort_lost_to_tilt :
  let s := toy_state (clock_of [1000; 1000; 2000]) []
                     [ESCAPE_CHAR; chr " "] 900 500 1000 (running 1900) 0 in
  let r := toy_state (clock_of [1000; 1000; 2000]) []
                     [ESCAPE_CHAR; chr " "] 500 500 1000 (running 1900) 0 in
  let p := toy_state (fun _ => 1000) []
                     [ESCAPE_CHAR; chr "["; chr "D"] 500 500 0
                     (paused_at 1000 1000) 0 in
  (characters_into_escape_sequence (loc s) = 0 /\
   fst (game_loop 2 s) = Continue /\
   serial_buffer (hw (snd (game_loop 2 s))) = [] /\
   characters_into_escape_sequence (loc (snd (game_loop 2 s))) = 0 /\
   calls (snd (game_loop 2 s)) = [CallMove MOVE_LEFT true]) /\
  calls (snd (game_loop 2 r))
  = [CallDrop true; CallDrop true; CallDrop false; CallFix true] /\
  (fst (game_loop 3 p) = Continue /\
   serial_buffer (hw (snd (game_loop 3 p))) = [] /\
   calls (snd (game_loop 3 p)) = []).
Proof. cbv zeta. repeat split. Qed.

(** A paused game with the stick held left, a space waiting and the drop
    timer long overdue: the pass makes no call. *)
Lemma paused_game_ignores_commands_witness :
  let s := toy_state (fun _ => 5000) [] [chr " "] 900 500 0 (paused_at 1000 2000) 0 in
  fst (process_input (fst (check_for_input (sampled s)))
                     (snd (check_for_input (sampled s)))) = Continue /\
  calls (snd (loop_body s)) = [] /\
  last_drop_time (loc (snd (loop_body s))) = 1000.
Proof.
  intros s.
  destruct (paused_game_ignores_commands s eq_refl)
    as (F & _ & _ & _ & _ & _ & L).
  destruct (L eq_refl) as (_ & C & _ & _ & D & _).
  split; [exact F|split; [exact C|exact D]].
Defined.

(** Two paused games.  In the first, button 3 and a space wait and the
    stick is held right: the button is taken and dropped, the space stays,
    no call.  In the second, ESC and '[' wait and the stick is held left:
    ESC is read and moves the decoder to 1, and [is_left] stamps the
    debounce timestamp with the clock's 5000. *)
Lemma paused_input_consumed_witness :
  let a := toy_state (fun _ => 5000) [3] [chr " "] 100 500 0 (paused_at 1000 2000) 0 in
  let b := toy_state (fun _ => 5000) [] [ESCAPE_CHAR; chr "["] 900 500 0
                     (paused_at 1000 2000) 0 in
  (fst (loop_body a) = Continue /\
   button_queue (hw (snd (loop_body a))) = [] /\
   serial_buffer (hw (snd (loop_body a))) = [chr " "] /\
   calls (snd (loop_body a)) = [] /\
   loc (snd (loop_body a)) = paused_at 1000 2000) /\
  (serial_buffer (hw (snd (loop_body b))) = [chr "["] /\
   characters_into_escape_sequence (loc (snd (loop_body b))) = 1 /\
   joystick_time (joy (snd (loop_body b))) = 5000).
Proof.
  intros a b. split.
  - destruct (paused_input_consumed a eq_refl) as (Hb & _).
    destruct (Hb 3 [] eq_refl ltac:(discriminate)) as (F & Qb & Qs & C & _ & _ & L).
    repeat split; assumption.
  - destruct (paused_input_consumed b eq_refl) as (_ & Hs & Hj & _).
    destruct (Hs ESCAPE_CHAR [chr "["] eq_refl eq_refl) as (S & N1 & _).
    split; [exact S|split; [exact (N1 eq_refl eq_refl)|]].
    destruct Hj as (k & _ & E); [|exact E].
    left. repeat split; vm_compute; first [discriminate|reflexivity].
Defined.

(** C10 as stated fails.  A 'p' and a space arrive during a pause: the
    first paused pass reads the 'p' and ends the pause, the space is still
    queued, and the next pass -- after the resume -- drops the block from
    height for it.  And in a paused game with button 3 pending and the
    stick held left, window elapsed, [is_left] is skipped for the button
    and the debounce timestamp stays as it was. *)
Lemma paused_input_survives_resume :
  let s := toy_state (fun _ => 5000) [] [chr "p"; chr " "] 500 500 0
                     (paused_at 4900 4950) 0 in
  let t := toy_state (fun _ => 5000) [3] [] 900 500 0 (paused_at 4900 4950) 0 in
  (paused (loc s) = true /\
   paused (loc (snd (game_loop 1 s))) = false /\
   serial_buffer (hw (snd (game_loop 1 s))) = [chr " "] /\
   calls (snd (game_loop 1 s)) = [] /\
   calls (snd (game_loop 2 s))
   = [CallDrop true; CallDrop true; CallDrop false; CallFix true]) /\
  (paused (loc t) = true /\
   850 < stick_x (joy (sampled t)) /\
   uint32 (joystick_time (joy t) + 150) < next_tick t /\
   button_queue (hw (snd (loop_body t))) = [] /\
   joystick_time (joy (snd (loop_body t))) = joystick_time (joy t)).
Proof. cbv zeta. repeat split. Qed.

(** * Further properties of the code *)

(** ** score.c under any sequence of calls *)

Lemma run_calls_cons c cs s :
  Score.run_calls (c :: cs) s = Score.run_calls cs (Score.run_call c s).
Proof. reflexivity. Qed.

Lemma run_call_ranges c s :
  0 <= Score.score s < 2 ^ 32 -> 0 <= Score.cleared_rows s <= 99 ->
  0 <= Score.score (Score.run_call c s) < 2 ^ 32 /\
  0 <= Score.cleared_rows (Score.run_call c s) <= 99.
Proof.
  intros Hs Hr. destruct c as [v|];
    cbn [Score.run_call Score.add_to_score Score.score Score.cleared_rows].
  - split; [|assumption]. unfold uint32. apply Z.mod_pos_bound. lia.
  - unfold Score.increment_cleared_rows.
    destruct (Z.ltb_spec (Score.cleared_rows s) 99);
      cbn [Score.score Score.cleared_rows]; [|now split].
    split; [assumption|]. unfold uint8. rewrite Z.mod_small; lia.
Qed.

(** X1.  Whatever calls of [add_to_score] and [increment_cleared_rows] are
    made, in whatever order, the score is the old score plus the values added
    (each as the [uint16_t] the function receives), modulo [2^32], and the
    cleared-rows count is the old count plus the number of increments, capped
    at 99: neither counter is disturbed by calls meant for the other. *)
Theorem run_calls_counters (cs : list Score.call) (s : Score.t)
    (Hs : 0 <= Score.score s < 2 ^ 32)
    (Hr : 0 <= Score.cleared_rows s <= 99) :
  Score.get_score (Score.run_calls cs s)
  = uint32 (Score.score s + added_score cs) /\
  Score.get_cleared_rows (Score.run_calls cs s)
  = Z.min 99 (Score.cleared_rows s + counted_rows cs).
Proof.
  unfold Score.get_score, Score.get_cleared_rows.
  revert s Hs Hr. induction cs as [|c cs IH]; intros s Hs Hr.
  - cbn [Score.run_calls fold_left added_score counted_rows].
    rewrite !Z.add_0_r, uint32_small by assumption. split; lia.
  - rewrite run_calls_cons.
    destruct (run_call_ranges c s Hs Hr) as [Hs' Hr'].
    destruct (IH _ Hs' Hr') as [E1 E2]. rewrite E1, E2.
    assert (P : forall cs', 0 <= counted_rows cs').
    { induction cs' as [|[v|] cs' IH']; cbn [counted_rows]; lia. }
    destruct c as [v|]; cbn [Score.run_call added_score counted_rows].
    + cbn [Score.add_to_score Score.score Score.cleared_rows].
      rewrite uint32_add_l, Z.add_assoc. split; reflexivity.
    + unfold Score.increment_cleared_rows.
      destruct (Z.ltb_spec (Score.cleared_rows s) 99);
        cbn [Score.score Score.cleared_rows].
      * unfold uint8. rewrite Z.mod_small by lia. split; [reflexivity|].
        f_equal. lia.
      * split; [reflexivity|]. pose proof (P cs). lia.
Qed.

Lemma run_calls_counters_witness :
  Score.get_score
    (Score.run_calls [Score.AddToScore 65535; Score.IncrementClearedRows;
                      Score.AddToScore 65537]
                     (Score.mk (2 ^ 32 - 1) 98)) = 65535 /\
  Score.get_cleared_rows
    (Score.run_calls [Score.AddToScore 65535; Score.IncrementClearedRows;
                      Score.AddToScore 65537]
                     (Score.mk (2 ^ 32 - 1) 98)) = 99.
Proof.
  exact (run_calls_counters
           [Score.AddToScore 65535; Score.IncrementClearedRows;
            Score.AddToScore 65537]
           (Score.mk (2 ^ 32 - 1) 98)
           ltac:(cbn; lia) ltac:(cbn; lia)).
Defined.

Lemma added_score_perm cs cs' :
  Permutation cs cs' ->
  added_score cs = added_score cs' /\ counted_rows cs = counted_rows cs'.
Proof.
  induction 1 as [|c l l' P [IH1 IH2]|c c' l|l l' l'' P [IH1 IH2] P' [IH1' IH2']].
  - split; reflexivity.
  - destruct c; cbn [added_score counted_rows]; split; lia.
  - destruct c, c'; cbn [added_score counted_rows]; split; lia.
  - split; congruence.
Qed.

(** X2.  The order of the calls does not matter: two sequences of calls of
    [add_to_score] and [increment_cleared_rows] that are rearrangements of
    one another leave the module in the same state. *)
Theorem run_calls_any_order (cs cs' : list Score.call) (s : Score.t)
    (Hs : 0 <= Score.score s < 2 ^ 32)
    (Hr : 0 <= Score.cleared_rows s <= 99)
    (Hp : Permutation cs cs') :
  Score.run_calls cs s = Score.run_calls cs' s.
Proof.
  destruct (run_calls_counters cs s Hs Hr) as [E1 E2].
  destruct (run_calls_counters cs' s Hs Hr) as [E1' E2'].
  destruct (added_score_perm _ _ Hp) as [A C].
  unfold Score.get_score, Score.get_cleared_rows in *.
  destruct (Score.run_calls cs s) as [a b], (Score.run_calls cs' s) as [a' b'].
  cbn in *. congruence.
Qed.

Lemma run_calls_any_order_witness :
  Score.run_calls [Score.IncrementClearedRows; Score.AddToScore 40]
                  (Score.mk 7 98)
  = Score.run_calls [Score.AddToScore 40; Score.IncrementClearedRows]
                    (Score.mk 7 98).
Proof.
  exact (run_calls_any_order
           [Score.IncrementClearedRows; Score.AddToScore 40]
           [Score.AddToScore 40; Score.IncrementClearedRows]
           (Score.mk 7 98) ltac:(cbn; lia) ltac:(cbn; lia)
           (perm_swap _ _ [])).
Defined.

(** ** The seven-segment display *)

Lemma segments_digit d :
  0 <= d <= 9 ->
  let p := nth (Z.to_nat d) seven_seg_digits 0 in
  digit_of_segments p = Some d /\ Z.testbit p 7 = false /\
  Z.testbit (Z.lor p 128) 7 = true /\ Z.land (Z.lor p 128) 127 = p.
Proof.
  intros H.
  assert (C : d = 0 \/ d = 1 \/ d = 2 \/ d = 3 \/ d = 4 \/ d = 5 \/ d = 6
              \/ d = 7 \/ d = 8 \/ d = 9) by lia.
  repeat (destruct C as [C|C]; [subst d; vm_compute; repeat split|]).
  subst d; vm_compute; repeat split.
Qed.

Section DisplayFacts.

Context {B : Type} `{G : Game B}.

(** X3.  With a cleared-rows count from 0 to 99, two successive calls of
    [update_seven_segment] put out the patterns of its two digits, the tens
    marked by bit 7, so that the count can be read back from the two outputs;
    after the two calls the digit selector is where it was, and nothing but
    [PORTC] has changed. *)
Theorem seven_segment_round_trip (s : state B)
    (Hr : 0 <= Score.get_cleared_rows (sc s) <= 99)
    (Hc : seven_seg_cc s = 0 \/ seven_seg_cc s = 1) :
  let s1 := update_seven_segment s in
  let s2 := update_seven_segment s1 in
  displayed_number (PORTC (hw s1)) (PORTC (hw s2))
  = Some (Score.get_cleared_rows (sc s)) /\
  seven_seg_cc s1 <> seven_seg_cc s /\
  seven_seg_cc s2 = seven_seg_cc s /\
  sc s2 = sc s /\ joy s2 = joy s /\ loc s2 = loc s /\ board s2 = board s /\
  calls s2 = calls s /\
  button_queue (hw s2) = button_queue (hw s) /\
  serial_buffer (hw s2) = serial_buffer (hw s) /\
  reads (hw s2) = reads (hw s) /\ conversions (hw s2) = conversions (hw s).
Proof.
  intros s1 s2. set (rows := Score.get_cleared_rows (sc s)) in *.
  assert (Hu : 0 <= rows mod 10 <= 9) by (pose proof (Z.mod_pos_bound rows 10); lia).
  assert (Ht : 0 <= (rows / 10) mod 10 <= 9)
    by (pose proof (Z.mod_pos_bound (rows / 10) 10); lia).
  assert (Hd : 10 * ((rows / 10) mod 10) + rows mod 10 = rows).
  { rewrite (Z.mod_small (rows / 10)).
    - pose proof (Z.div_mod rows 10). lia.
    - split; [apply Z.div_pos; lia|apply Z.div_lt_upper_bound; lia]. }
  destruct (segments_digit _ Hu) as (U1 & U2 & _ & _).
  destruct (segments_digit _ Ht) as (T1 & _ & T3 & T4).
  subst s2 s1. unfold update_seven_segment, displayed_number.
  cbn [hw PORTC seven_seg_cc sc joy loc board calls button_queue serial_buffer
       reads conversions ticks adc].
  fold rows.
  destruct Hc as [Hc|Hc]; rewrite Hc;
    change (Z.lxor 1 0) with 1; change (Z.lxor 1 1) with 0;
    change (Z.lxor 1 0) with 1;
    change (1 =? 0) with false; change (0 =? 0) with true; cbv iota.
  - rewrite T3. cbv iota. rewrite T4, T1, U1, Hd. repeat split. discriminate.
  - rewrite U2. cbv iota. rewrite T4, T1, U1, Hd. repeat split. discriminate.
Qed.

End DisplayFacts.

Lemma seven_segment_round_trip_witness :
  let s := toy_state (fun _ => 0) [] [] 500 500 0 (running 0) 47 in
  PORTC (hw (update_seven_segment s)) = 230 /\
  PORTC (hw (update_seven_segment (update_seven_segment s))) = 7 /\
  displayed_number 230 7 = Some 47.
Proof.
  intros s.
  pose proof (seven_segment_round_trip s ltac:(cbn; lia) ltac:(left; reflexivity))
    as H.
  split; [reflexivity|]. split; [reflexivity|]. exact (proj1 H).
Defined.

(** ** The joystick conversion *)

Section ConversionFacts.

Context {B : Type} `{G : Game B}.

(** X4.  [convert_joystick] takes the two axes in turn: of two successive
    calls one stores a new horizontal and the other a new vertical reading,
    each the converter's result reduced to 16 bits, so that a reading is at
    most one call old; the call that converts one axis leaves the other
    reading alone, and the debounce timestamp is never touched. *)
Theorem convert_joystick_alternates (s : state B)
    (Hp : target_pin (joy s) = 0 \/ target_pin (joy s) = 1) :
  let s1 := convert_joystick s in
  let s2 := convert_joystick s1 in
  let k := conversions (hw s) in
  (target_pin (joy s) = 0 ->
   stick_x (joy s1) = uint16 (adc (hw s) k) /\
   stick_y (joy s1) = stick_y (joy s) /\
   stick_x (joy s2) = uint16 (adc (hw s) k) /\
   stick_y (joy s2) = uint16 (adc (hw s) (S k))) /\
  (target_pin (joy s) = 1 ->
   stick_y (joy s1) = uint16 (adc (hw s) k) /\
   stick_x (joy s1) = stick_x (joy s) /\
   stick_y (joy s2) = uint16 (adc (hw s) k) /\
   stick_x (joy s2) = uint16 (adc (hw s) (S k))) /\
  target_pin (joy s1) = 1 - target_pin (joy s) /\
  target_pin (joy s2) = target_pin (joy s) /\
  joystick_time (joy s2) = joystick_time (joy s) /\
  conversions (hw s2) = S (S k) /\
  0 <= stick_x (joy s2) < 2 ^ 16 /\ 0 <= stick_y (joy s2) < 2 ^ 16.
Proof.
  intros s1 s2 k. subst s2 s1 k. unfold convert_joystick.
  assert (R : forall z, 0 <= uint16 z < 2 ^ 16)
    by (intros z; apply Z.mod_pos_bound; lia).
  destruct Hp as [Hp|Hp]; rewrite Hp; cbn -[uint16 Z.pow];
    repeat split; try discriminate; try apply R; try apply (proj1 (R _)).
Qed.

End ConversionFacts.

Lemma convert_joystick_alternates_witness :
  let s := toy_state (fun _ => 0) [] [] 900 70000 0 (running 0) 0 in
  stick_x (joy (convert_joystick (convert_joystick s))) = 900 /\
  stick_y (joy (convert_joystick (convert_joystick s))) = 4464.
Proof.
  intros s.
  destruct (convert_joystick_alternates s ltac:(left; reflexivity))
    as (H0 & _).
  destruct (H0 eq_refl) as (_ & _ & X & Y).
  split; [exact X|exact Y].
Defined.

(** ** The input check *)

Section InputCheckFacts.

Context {B : Type} `{G : Game B}.

Lemma escape_sequence_step_exclusive n c :
  snd (fst (escape_sequence_step n c)) = -1 \/
  snd (escape_sequence_step n c) = -1.
Proof.
  unfold escape_sequence_step.
  repeat match goal with
         | |- context [if ?b then _ else _] => destruct b
         end; cbn; auto.
Qed.

(** X5.  Whatever the queues hold, the input check leaves at most one of
    [button], [serial_input] and [escape_sequence_char] different from -1,
    as the comment at the head of the check says. *)
Theorem check_for_input_exclusive (s : state B) :
  let i := fst (check_for_input s) in
  (button i = -1 /\ serial_input i = -1) \/
  (button i = -1 /\ escape_sequence_char i = -1) \/
  (serial_input i = -1 /\ escape_sequence_char i = -1).
Proof.
  unfold check_for_input, button_pushed, serial_input_available, fgetc_stdin.
  destruct (button_queue (hw s)) as [|b bs].
  - change (-1 =? -1) with true. cbv iota.
    destruct (serial_buffer (hw s)) as [|c cs]; cbn [fst]; [right; right; now split|].
    cbn [hw set_hw serial_buffer loc].
    pose proof (escape_sequence_step_exclusive
                  (characters_into_escape_sequence (loc s)) (to_char c)) as E.
    destruct (escape_sequence_step _ _) as [[n si] e]. cbn in *.
    destruct E; [left|right; left]; now split.
  - destruct (Z.eqb_spec b (-1)) as [E|E]; [|right; right; now split].
    cbn [hw set_hw serial_buffer loc].
    destruct (serial_buffer (hw s)) as [|c cs]; cbn [fst];
      [right; right; now split|].
    cbn [hw set_hw serial_buffer loc].
    pose proof (escape_sequence_step_exclusive
                  (characters_into_escape_sequence (loc s)) (to_char c)) as E'.
    destruct (escape_sequence_step _ _) as [[n si] e]. cbn in *.
    destruct E'; [left|right; left]; now split.
Qed.

End InputCheckFacts.

(** ** Keys through the decoder *)

Lemma to_char_cases b :
  0 <= b < 256 ->
  (b < 128 /\ to_char b = b) \/ (128 <= b /\ to_char b = b - 256).
Proof.
  intros H. unfold to_char. destruct (Z.lt_ge_cases b 128).
  - left. split; [assumption|]. rewrite Z.mod_small; lia.
  - right. split; [assumption|].
    replace (b + 128) with ((b - 128) + 1 * 2 ^ 8) by lia.
    rewrite Z.mod_add by lia. rewrite Z.mod_small; lia.
Qed.

Lemma step_plain c :
  c <> ESCAPE_CHAR -> escape_sequence_step 0 c = (0, c, -1).
Proof.
  intros N. unfold escape_sequence_step. apply Z.eqb_neq in N. rewrite N.
  reflexivity.
Qed.

Lemma pending_plain c : c <> -1 -> pending (mkInput (-1) c (-1)) = true.
Proof.
  intros N. unfold pending. cbn [button serial_input escape_sequence_char].
  apply Z.eqb_neq in N. rewrite N. reflexivity.
Qed.

Lemma pending_cursor c : c <> -1 -> pending (mkInput (-1) (-1) c) = true.
Proof.
  intros N. unfold pending. cbn [button serial_input escape_sequence_char].
  apply Z.eqb_neq in N. rewrite N. reflexivity.
Qed.

Section KeyFacts.

Context {B : Type} `{G : Game B}.

Lemma check_inputs_app k1 k2 (s : state B) :
  check_inputs (k1 + k2) s
  = (fst (check_inputs k1 s)
       ++ fst (check_inputs k2 (snd (check_inputs k1 s))),
     snd (check_inputs k2 (snd (check_inputs k1 s)))).
Proof.
  revert s. induction k1 as [|k1 IH]; intros s.
  - cbn. now destruct (check_inputs k2 s).
  - cbn [Nat.add check_inputs].
    destruct (check_for_input s) as [i s1]. rewrite IH.
    destruct (check_inputs k1 s1) as [l1 s2]. cbn [fst snd].
    now destruct (check_inputs k2 s2).
Qed.

(** One byte read with no button pending: the decoder's step. *)
Lemma check_byte (s : state B) c rest :
  button_queue (hw s) = [] -> serial_buffer (hw s) = c :: rest ->
  let r := escape_sequence_step (characters_into_escape_sequence (loc s))
                                (to_char c) in
  fst (check_inputs 1 s) = [mkInput (-1) (snd (fst r)) (snd r)] /\
  button_queue (hw (snd (check_inputs 1 s))) = [] /\
  serial_buffer (hw (snd (check_inputs 1 s))) = rest /\
  characters_into_escape_sequence (loc (snd (check_inputs 1 s))) = fst (fst r).
Proof.
  intros Hb Hs r.
  destruct (check_for_input_serial s c rest Hb Hs) as (I & Qb & Qs & Qc).
  fold r in I, Qc. cbn [check_inputs].
  destruct (check_for_input s) as [i s1]. cbn [fst snd] in *.
  subst i. repeat split; assumption.
Qed.

(** The bytes of one key, read from an idle decoder. *)
Lemma check_key (k : key) (s : state B) rest :
  key_ok k ->
  button_queue (hw s) = [] ->
  characters_into_escape_sequence (loc s) = 0 ->
  serial_buffer (hw s) = bytes_of_key k ++ rest ->
  let r := check_inputs (length (bytes_of_key k)) s in
  filter pending (fst r) = [input_of_key k] /\
  button_queue (hw (snd r)) = [] /\
  characters_into_escape_sequence (loc (snd r)) = 0 /\
  serial_buffer (hw (snd r)) = rest.
Proof.
  intros Hk Hb Hc Hs. destruct k as [b|b]; cbn [bytes_of_key length app] in *.
  - destruct Hk as [Hr Hn].
    destruct (check_byte s b rest Hb Hs) as (I & Qb & Qs & Qc).
    rewrite Hc in I, Qc.
    assert (T : to_char b <> ESCAPE_CHAR /\ to_char b <> -1).
    { unfold ESCAPE_CHAR in *.
      destruct (to_char_cases b ltac:(lia)) as [[? E]|[? E]]; rewrite E; lia. }
    destruct T as [T1 T2].
    rewrite (step_plain _ T1) in I, Qc. cbn [fst snd] in I, Qc.
    cbv zeta. rewrite I. cbn [filter input_of_key].
    rewrite (pending_plain _ T2). repeat split; assumption.
  - assert (Hr : 0 <= b < 255) by exact Hk.
    cbv zeta. change 3%nat with (1 + (1 + 1))%nat.
    rewrite !check_inputs_app. cbn [fst snd].
    destruct (check_byte s _ _ Hb Hs) as (I1 & Qb1 & Qs1 & Qc1).
    rewrite Hc in I1, Qc1.
    change (escape_sequence_step 0 (to_char ESCAPE_CHAR)) with (1, -1, -1)
      in I1, Qc1.
    cbn [fst snd] in I1, Qc1.
    set (s1 := snd (check_inputs 1 s)) in *.
    destruct (check_byte s1 _ _ Qb1 Qs1) as (I2 & Qb2 & Qs2 & Qc2).
    rewrite Qc1 in I2, Qc2.
    change (escape_sequence_step 1 (to_char (chr "["))) with (2, -1, -1)
      in I2, Qc2.
    cbn [fst snd] in I2, Qc2.
    set (s2 := snd (check_inputs 1 s1)) in *.
    destruct (check_byte s2 _ _ Qb2 Qs2) as (I3 & Qb3 & Qs3 & Qc3).
    rewrite Qc2 in I3, Qc3.
    change (escape_sequence_step 2 (to_char b)) with (0, -1, to_char b)
      in I3, Qc3.
    cbn [fst snd] in I3, Qc3.
    rewrite I1, I2, I3.
    assert (T : to_char b <> -1).
    { destruct (to_char_cases b ltac:(lia)) as [[? E]|[? E]]; rewrite E; lia. }
    cbn [app filter input_of_key].
    rewrite (pending_cursor _ T).
    change (pending (mkInput (-1) (-1) (-1))) with false. cbv iota.
    repeat split; assumption.
Qed.

(** X6.  Keys sent by the terminal are read back as they were sent.  With no
    button pushed and the decoder idle, a sequence of keys -- plain bytes
    other than ESC, and cursor keys sent as ESC, '[', letter; no byte 255,
    which as a [char] is the -1 that stands for no input -- is taken from
    the serial buffer in as many input checks as it has bytes; the checks
    that find something to act on give the keys in order, a plain byte in
    [serial_input] and a cursor key's letter in [escape_sequence_char]; and
    the decoder is idle again at the end, with the rest of the buffer
    untouched. *)
Theorem keys_round_trip (keys : list key) (s : state B) (rest : list Z)
    (Hk : Forall key_ok keys)
    (Hb : button_queue (hw s) = [])
    (Hc : characters_into_escape_sequence (loc s) = 0)
    (Hs : serial_buffer (hw s) = concat (map bytes_of_key keys) ++ rest) :
  let r := check_inputs (length (concat (map bytes_of_key keys))) s in
  filter pending (fst r) = map input_of_key keys /\
  button_queue (hw (snd r)) = [] /\
  characters_into_escape_sequence (loc (snd r)) = 0 /\
  serial_buffer (hw (snd r)) = rest.
Proof.
  revert s Hb Hc Hs. induction Hk as [|k keys Hk Hks IH]; intros s Hb Hc Hs.
  - cbn in *. repeat split; assumption.
  - cbn [map concat] in *. rewrite <- app_assoc in Hs.
    destruct (check_key k s _ Hk Hb Hc Hs) as (F & Qb & Qc & Qs).
    destruct (IH _ Qb Qc Qs) as (F' & Qb' & Qc' & Qs').
    cbv zeta. rewrite length_app, check_inputs_app. cbn [fst snd].
    rewrite filter_app, F, F'. repeat split; assumption.
Qed.

End KeyFacts.

Lemma keys_round_trip_witness :
  let s := toy_state (fun _ => 0) []
             [chr "p"; ESCAPE_CHAR; chr "["; chr "A"; chr " "; 200; chr "q"]
             500 500 0 (running 0) 0 in
  filter pending (fst (check_inputs 6 s))
  = [mkInput (-1) (chr "p") (-1); mkInput (-1) (-1) (chr "A");
     mkInput (-1) (chr " ") (-1); mkInput (-1) (-56) (-1)] /\
  serial_buffer (hw (snd (check_inputs 6 s))) = [chr "q"].
Proof.
  intros s.
  assert (Hk : Forall key_ok [Plain (chr "p"); Cursor (chr "A");
                              Plain (chr " "); Plain 200]).
  { repeat constructor; unfold ESCAPE_CHAR; try (vm_compute; discriminate);
      vm_compute; discriminate. }
  destruct (keys_round_trip [Plain (chr "p"); Cursor (chr "A");
                             Plain (chr " "); Plain 200]
              s [chr "q"] Hk eq_refl eq_refl eq_refl)
    as (F & _ & _ & R).
  split; [exact F|exact R].
Defined.

(** X7.  The decoder cannot get stuck in a sequence: its counter is always
    0, 1 or 2, and of any three bytes read one after the other at least one
    leaves it idle -- a stray ESC holds back at most the two bytes after
    it. *)
Theorem decoder_idle_within_three (n b1 b2 b3 : Z)
    (Hn : n = 0 \/ n = 1 \/ n = 2) :
  let n1 := fst (fst (escape_sequence_step n b1)) in
  let n2 := fst (fst (escape_sequence_step n1 b2)) in
  let n3 := fst (fst (escape_sequence_step n2 b3)) in
  (n1 = 0 \/ n1 = 1 \/ n1 = 2) /\ (n2 = 0 \/ n2 = 1 \/ n2 = 2) /\
  (n3 = 0 \/ n3 = 1 \/ n3 = 2) /\
  (n1 = 0 \/ n2 = 0 \/ n3 = 0).
Proof.
  assert (S1 : forall m b, m = 0 \/ m = 1 \/ m = 2 ->
    let m' := fst (fst (escape_sequence_step m b)) in
    (m = 0 /\ (m' = 0 \/ m' = 1)) \/ (m = 1 /\ (m' = 0 \/ m' = 2))
    \/ (m = 2 /\ m' = 0)).
  { intros m b [E|[E|E]]; subst m; unfold escape_sequence_step; cbn [Z.eqb andb].
    - left. split; [reflexivity|]. destruct (b =? ESCAPE_CHAR); cbn; auto.
    - right; left. split; [reflexivity|].
      change (1 =? 0) with false. change (1 =? 1) with true.
      change (1 =? 2) with false. cbn [andb].
      destruct (b =? chr "["); cbn; auto.
    - right; right. split; reflexivity. }
  cbv zeta.
  destruct (S1 n b1 Hn) as [[E A]|[[E A]|[E A]]]; cbv zeta in A.
  - destruct A as [A|A]; rewrite A.
    + pose proof (S1 0 b2 (or_introl eq_refl)) as [[_ A2]|[[? _]|[? _]]];
        try discriminate; cbv zeta in A2.
      destruct A2 as [A2|A2]; rewrite A2.
      * pose proof (S1 0 b3 (or_introl eq_refl)) as [[_ A3]|[[? _]|[? _]]];
          try discriminate; cbv zeta in A3. lia.
      * pose proof (S1 1 b3 (or_intror (or_introl eq_refl)))
          as [[? _]|[[_ A3]|[? _]]]; try discriminate; cbv zeta in A3. lia.
    + pose proof (S1 1 b2 (or_intror (or_introl eq_refl)))
        as [[? _]|[[_ A2]|[? _]]]; try discriminate; cbv zeta in A2.
      destruct A2 as [A2|A2]; rewrite A2.
      * pose proof (S1 0 b3 (or_introl eq_refl)) as [[_ A3]|[[? _]|[? _]]];
          try discriminate; cbv zeta in A3. lia.
      * pose proof (S1 2 b3 (or_intror (or_intror eq_refl)))
          as [[? _]|[[? _]|[_ A3]]]; try discriminate; cbv zeta in A3. lia.
  - destruct A as [A|A]; rewrite A.
    + pose proof (S1 0 b2 (or_introl eq_refl)) as [[_ A2]|[[? _]|[? _]]];
        try discriminate; cbv zeta in A2.
      destruct A2 as [A2|A2]; rewrite A2.
      * pose proof (S1 0 b3 (or_introl eq_refl)) as [[_ A3]|[[? _]|[? _]]];
          try discriminate; cbv zeta in A3. lia.
      * pose proof (S1 1 b3 (or_intror (or_introl eq_refl)))
          as [[? _]|[[_ A3]|[? _]]]; try discriminate; cbv zeta in A3. lia.
    + pose proof (S1 2 b2 (or_intror (or_intror eq_refl)))
        as [[? _]|[[? _]|[_ A2]]]; try discriminate; cbv zeta in A2.
      rewrite A2.
      pose proof (S1 0 b3 (or_introl eq_refl)) as [[_ A3]|[[? _]|[? _]]];
        try discriminate; cbv zeta in A3. lia.
  - rewrite A.
    pose proof (S1 0 b2 (or_introl eq_refl)) as [[_ A2]|[[? _]|[? _]]];
      try discriminate; cbv zeta in A2.
    destruct A2 as [A2|A2]; rewrite A2.
    + pose proof (S1 0 b3 (or_introl eq_refl)) as [[_ A3]|[[? _]|[? _]]];
        try discriminate; cbv zeta in A3. lia.
    + pose proof (S1 1 b3 (or_intror (or_introl eq_refl)))
        as [[? _]|[[_ A3]|[? _]]]; try discriminate; cbv zeta in A3. lia.
Qed.

Lemma decoder_idle_within_three_witness :
  let n1 := fst (fst (escape_sequence_step 0 ESCAPE_CHAR)) in
  let n2 := fst (fst (escape_sequence_step n1 (chr "["))) in
  let n3 := fst (fst (escape_sequence_step n2 ESCAPE_CHAR)) in
  n1 = 0 \/ n2 = 0 \/ n3 = 0.
Proof.
  exact (proj2 (proj2 (proj2
           (decoder_idle_within_three 0 ESCAPE_CHAR (chr "[") ESCAPE_CHAR
              (or_introl eq_refl))))).
Defined.

(** ** The calls of a pass *)

Lemma drop_shape_fix l f :
  drop_shape l f ->
  (f = GameOver <-> In (CallFix false) l) /\
  (f = GameOver ->
   exists l', l = l' ++ [CallFix false] /\ ~ In (CallFix false) l').
Proof.
  assert (R : forall n, ~ In (CallFix false) (repeat (CallDrop true) n ++ [CallDrop false])).
  { intros n H. apply in_app_or in H. destruct H as [H|[H|[]]]; [|discriminate].
    apply repeat_spec in H. discriminate. }
  intros [[E F]|(n & ok & E & F)]; subst l f.
  - split; [split; [discriminate|intros [H|[]]; discriminate]|discriminate].
  - assert (E : repeat (CallDrop true) n ++ [CallDrop false; CallFix ok]
                = (repeat (CallDrop true) n ++ [CallDrop false]) ++ [CallFix ok])
      by (now rewrite <- app_assoc).
    rewrite E. destruct ok.
    + split; [split; [discriminate|]|discriminate].
      intros H. apply in_app_or in H. destruct H as [H|[H|[]]];
        [now apply R in H|discriminate].
    + split; [split; [intros _; apply in_or_app; right; now left|reflexivity]|].
      intros _. eexists. split; [reflexivity|apply R].
Qed.

Lemma command_shape_fix l f :
  command_shape l f ->
  (f = GameOver <-> In (CallFix false) l) /\
  (f = GameOver ->
   exists l', l = l' ++ [CallFix false] /\ ~ In (CallFix false) l').
Proof.
  intros [[F H]|H]; [|now apply drop_shape_fix].
  subst f. split; [|discriminate]. split; [discriminate|].
  destruct H as [E|[(m & ok & E)|(ok & E)]]; subst l;
    [intros []|intros [H|[]]; discriminate|intros [H|[]]; discriminate].
Qed.

Section CallFacts.

Context {B : Type} `{G : Game B}.

Lemma new_calls_app (s s' : state B) l :
  calls s' = calls s ++ l -> new_calls s s' = l.
Proof.
  intros E. unfold new_calls. rewrite E.
  rewrite skipn_app, skipn_all, Nat.sub_diag. reflexivity.
Qed.

Lemma drop_one_row_or_fix_shape (s : state B) :
  exists l, calls (snd (drop_one_row_or_fix s)) = calls s ++ l /\
            drop_shape l (fst (drop_one_row_or_fix s)).
Proof.
  unfold drop_one_row_or_fix, do_attempt_drop_block_one_row.
  destruct (attempt_drop_block_one_row (board s)) as [ok b]. destruct ok.
  - exists [CallDrop true]. split; [reflexivity|left; now split].
  - unfold do_fix_block_to_board_and_add_new_block. cbn [board set_board].
    destruct (fix_block_to_board_and_add_new_block b) as [[ok' cs] b'].
    exists [CallDrop false; CallFix ok']. split.
    + destruct ok'; cbn; now rewrite <- app_assoc.
    + right. exists 0%nat, ok'. split; [reflexivity|]. now destruct ok'.
Qed.

Lemma drop_from_height_shape (s : state B) :
  exists l, calls (snd (drop_from_height s)) = calls s ++ l /\
            drop_shape l (fst (drop_from_height s)).
Proof.
  destruct (drop_from_height_calls s) as (n & ok & _ & C & F & _).
  eexists. split; [exact C|]. right. exists n, ok. split; [reflexivity|exact F].
Qed.

(** What acting on the input adds to the record, and how it ends. *)
Lemma process_input_command (i : input) (s : state B) :
  exists l, calls (snd (process_input i s)) = calls s ++ l /\
            command_shape l (fst (process_input i s)) /\
            (paused (loc s) = true -> l = []).
Proof.
  destruct (process_input_shape i s) as (s1 & Q & Br).
  assert (Hp : paused (loc s1) = paused (loc s)) by (now rewrite (polled_loc _ _ Q)).
  inversion Br as [H0 E|H0 E|H0 E|H0 E|H0 K E|K E|K1 K2 E]; rewrite <- ?E;
    cbn [fst snd].
  - exists [CallMove MOVE_LEFT (fst (attempt_move MOVE_LEFT (board s1)))].
    rewrite do_attempt_move_calls, (polled_calls _ _ Q).
    split; [reflexivity|]. split; [|congruence].
    left. split; [reflexivity|]. right; left. now eexists; eexists.
  - exists [CallMove MOVE_RIGHT (fst (attempt_move MOVE_RIGHT (board s1)))].
    rewrite do_attempt_move_calls, (polled_calls _ _ Q).
    split; [reflexivity|]. split; [|congruence].
    left. split; [reflexivity|]. right; left. now eexists; eexists.
  - exists [CallRotation (fst (attempt_rotation (board s1)))].
    rewrite do_attempt_rotation_calls, (polled_calls _ _ Q).
    split; [reflexivity|]. split; [|congruence].
    left. split; [reflexivity|]. right; right. now eexists.
  - destruct (drop_one_row_or_fix_shape s1) as (l & C & S).
    exists l. rewrite C, (polled_calls _ _ Q).
    split; [reflexivity|]. split; [now right|congruence].
  - destruct (drop_from_height_shape s1) as (l & C & S).
    exists l. rewrite C, (polled_calls _ _ Q).
    split; [reflexivity|]. split; [now right|congruence].
  - exists []. rewrite app_nil_r. split.
    + unfold toggle_pause. destruct (paused (loc s1)); cbn;
        apply (polled_calls _ _ Q).
    + split; [|reflexivity]. left. split; [reflexivity|now left].
  - exists []. rewrite app_nil_r. split; [apply (polled_calls _ _ Q)|].
    split; [|reflexivity]. left. split; [reflexivity|now left].
Qed.

(** X8.  Acting on the input makes at most one command's worth of calls:
    none, one move, one rotation, one successful drop, or -- for the single
    drop with no drop before it, for the drop from height after any number
    of successful ones -- a failed drop followed by exactly one fix.  It
    ends the game exactly when that fix fails, and in a paused game it makes
    no call. *)
Theorem one_command_per_pass (i : input) (s : state B) :
  let r := process_input i s in
  let l := new_calls s (snd r) in
  calls (snd r) = calls s ++ l /\
  command_shape l (fst r) /\
  (fst r = GameOver <-> In (CallFix false) l) /\
  (paused (loc s) = true -> l = []).
Proof.
  intros r l. destruct (process_input_command i s) as (l0 & C & S & P).
  assert (E : l = l0) by (subst l r; now apply new_calls_app).
  rewrite E. repeat split; try assumption; apply (command_shape_fix _ _ S).
Qed.

(** What the timer-driven part of a pass adds to the record. *)
Lemma timer_related_events_shape (s : state B) :
  exists l, calls (snd (timer_related_events s)) = calls s ++ l /\
            ((l = [] /\ fst (timer_related_events s) = Continue) \/
             drop_shape l (fst (timer_related_events s))).
Proof.
  destruct (timer_related_events_cases s) as [[_ E]|[_ E]]; rewrite E.
  - exists []. cbn. rewrite app_nil_r. split; [reflexivity|left; now split].
  - destruct (drop_one_row_or_fix_shape (held s)) as (l & C & S).
    exists l. split; [exact C|now right].
Qed.

(** X9.  A pass of the loop ends the game exactly when a call of
    [fix_block_to_board_and_add_new_block] reports that the new block does
    not fit; that call is then the last call of the pass and the only failed
    fix in it.  (Nothing is called after a [break].) *)
Theorem game_over_iff_fix_fails (s : state B) :
  let r := loop_body s in
  let l := new_calls s (snd r) in
  calls (snd r) = calls s ++ l /\
  (fst r = GameOver <-> In (CallFix false) l) /\
  (fst r = GameOver ->
   exists l', l = l' ++ [CallFix false] /\ ~ In (CallFix false) l').
Proof.
  intros r l. subst l r. rewrite loop_body_finish.
  set (i := fst (check_for_input (sampled s))).
  set (s1 := snd (check_for_input (sampled s))).
  pose proof (prepared_calls _ _ (prepared_checked s)) as P. fold s1 in P.
  destruct (process_input_command i s1) as (l1 & C1 & S1 & _).
  destruct (command_shape_fix _ _ S1) as [F1 L1].
  destruct (process_input i s1) as [f1 s2]. cbn [fst snd] in *.
  destruct f1; cbn [finish].
  - destruct (timer_related_events_shape s2) as (l2 & C2 & S2).
    assert (N1 : ~ In (CallFix false) l1) by (intros H; apply F1 in H; discriminate).
    assert (C : calls (snd (timer_related_events s2)) = calls s ++ (l1 ++ l2))
      by (rewrite C2, C1, P, app_assoc; reflexivity).
    rewrite (new_calls_app _ _ _ C). split; [exact C|].
    assert (F2 : (fst (timer_related_events s2) = GameOver <-> In (CallFix false) l2) /\
                 (fst (timer_related_events s2) = GameOver ->
                  exists l', l2 = l' ++ [CallFix false] /\ ~ In (CallFix false) l')).
    { destruct S2 as [[E2 F]|S2]; [|now apply drop_shape_fix].
      rewrite F, E2. split; [split; [discriminate|intros []]|discriminate]. }
    destruct F2 as [F2 L2]. split.
    + rewrite F2. split; [intros H; apply in_or_app; now right|].
      intros H. apply in_app_or in H. destruct H; [contradiction|assumption].
    + intros H. destruct (L2 H) as (l' & E & N). exists (l1 ++ l').
      split; [rewrite E; apply app_assoc|].
      intros H'. apply in_app_or in H'. destruct H'; contradiction.
  - assert (C : calls s2 = calls s ++ l1) by (rewrite C1, P; reflexivity).
    cbn [fst snd]. rewrite (new_calls_app _ _ _ C). split; [exact C|].
    split; [exact F1|exact L1].
Qed.

End CallFacts.

(** ** Commands and the drop timer *)

Section TimerFacts.

Context {B : Type} `{G : Game B}.

Lemma rotation_same (s : state B) :
  let s' := snd (do_attempt_rotation s) in
  hw s' = hw s /\ sc s' = sc s /\ joy s' = joy s /\ loc s' = loc s.
Proof.
  unfold do_attempt_rotation. destruct (attempt_rotation (board s)).
  repeat split.
Qed.

(** Acting on the input either makes a drop, or flips the pause flag, or
    leaves score and locals alone and goes on. *)
Lemma process_input_effect (i : input) (s : state B) :
  let r := process_input i s in
  exists l, calls (snd r) = calls s ++ l /\
    ((exists ok, In (CallDrop ok) l) \/
     paused (loc (snd r)) <> paused (loc s) \/
     (fst r = Continue /\ sc (snd r) = sc s /\ loc (snd r) = loc s)).
Proof.
  cbv zeta. destruct (process_input_shape i s) as (s1 & Q & Br).
  pose proof (polled_calls _ _ Q) as Qc. pose proof (polled_sc _ _ Q) as Qs.
  pose proof (polled_loc _ _ Q) as Ql.
  inversion Br as [H0 E|H0 E|H0 E|H0 E|H0 K E|K E|K1 K2 E]; rewrite <- ?E;
    cbn [fst snd].
  - destruct (move_same MOVE_LEFT s1) as (_ & Ms & _ & Ml & Mc).
    eexists. split; [rewrite Mc, Qc; reflexivity|]. right; right.
    repeat split; congruence.
  - destruct (move_same MOVE_RIGHT s1) as (_ & Ms & _ & Ml & Mc).
    eexists. split; [rewrite Mc, Qc; reflexivity|]. right; right.
    repeat split; congruence.
  - destruct (rotation_same s1) as (_ & Ms & _ & Ml).
    eexists. split; [rewrite do_attempt_rotation_calls, Qc; reflexivity|].
    right; right. repeat split; congruence.
  - destruct (drop_one_row_or_fix_calls s1) as (rest & C).
    eexists. split; [rewrite C, Qc; reflexivity|]. left.
    eexists. now left.
  - destruct (drop_from_height_calls s1) as (n & ok & _ & C & _).
    eexists. split; [rewrite C, Qc; reflexivity|]. left.
    exists false. apply in_or_app. right. now left.
  - exists []. rewrite app_nil_r. destruct (paused (loc s1)) eqn:P.
    + destruct (toggle_pause_resumes s1 P) as (L & C & _).
      split; [congruence|]. right; left. rewrite L, <- Ql, P. discriminate.
    + destruct (toggle_pause_pauses s1 P) as (L & C & _).
      split; [congruence|]. right; left. rewrite L, <- Ql, P. discriminate.
  - exists []. rewrite app_nil_r. split; [assumption|]. right; right.
    repeat split; assumption.
Qed.

(** X10.  Gravity is not put off by moving or turning the block: a pass in
    which no drop is attempted and the pause flag stays as it is leaves
    [last_drop_time], [paused_time], the score and the cleared-rows count
    unchanged, and does not end the game. *)
Theorem moves_keep_timer (s : state B)
    (Hd : forall ok, ~ In (CallDrop ok) (new_calls s (snd (loop_body s))))
    (Hp : paused (loc (snd (loop_body s))) = paused (loc s)) :
  fst (loop_body s) = Continue /\
  last_drop_time (loc (snd (loop_body s))) = last_drop_time (loc s) /\
  paused_time (loc (snd (loop_body s))) = paused_time (loc s) /\
  sc (snd (loop_body s)) = sc s.
Proof.
  rewrite loop_body_finish in *.
  set (i := fst (check_for_input (sampled s))) in *.
  set (s1 := snd (check_for_input (sampled s))) in *.
  pose proof (prepared_checked s) as P. fold s1 in P.
  destruct (process_input_effect i s1) as (l1 & C1 & E1). cbv zeta in *.
  assert (A : acted (snd (process_input i s1))
                    (snd (finish (process_input i s1))))
    by (apply finish_acted, acted_refl).
  destruct (acted_calls _ _ A) as (l2 & C2).
  assert (C : calls (snd (finish (process_input i s1))) = calls s ++ (l1 ++ l2))
    by (rewrite C2, C1, (prepared_calls _ _ P), app_assoc; reflexivity).
  rewrite (new_calls_app _ _ _ C) in Hd.
  destruct E1 as [(ok & I)|[N|(F & S & L)]].
  - exfalso. apply (Hd ok). apply in_or_app. now left.
  - exfalso. apply N. rewrite <- (acted_paused _ _ A), Hp.
    symmetry. apply (prepared_paused _ _ P).
  - destruct (process_input i s1) as [f s2]. cbn [fst snd] in *. subst f.
    cbn [finish] in *.
    destruct (timer_related_events_cases s2) as [[_ E]|[_ E]].
    + rewrite E. cbn. rewrite L, S.
      repeat split;
        [apply (prepared_ldt _ _ P)|apply (prepared_paused_time _ _ P)
        |apply (prepared_sc _ _ P)].
    + exfalso. rewrite E in C2.
      destruct (drop_one_row_or_fix_calls (held s2)) as (rest & C3).
      rewrite C3 in C2. cbn [held get_clock_ticks snd set_hw calls] in C2.
      apply app_inv_head in C2. subst l2.
      eapply Hd. apply in_or_app. right. now left.
Qed.

(** X11.  A soft drop after which the game goes on takes [last_drop_time]
    from the clock, read right after the drop; so the timer check that
    follows in the same pass finds no drop due unless the clock has moved on
    by a whole interval between that read and its own (or the interval is
    no longer positive). *)
Theorem soft_drop_restarts_timer (s : state B)
    (Hc : fst (drop_one_row_or_fix s) = Continue) :
  let s1 := snd (drop_one_row_or_fix s) in
  let t0 := next_tick s in
  let interval := 600 - 30 * Score.get_cleared_rows (sc s1) in
  last_drop_time (loc s1) = t0 /\
  next_tick s1 = ticks (hw s) (S (reads (hw s))) /\
  paused (loc s1) = paused (loc s) /\
  (0 <= t0 + interval < 2 ^ 32 -> next_tick s1 < t0 + interval ->
   timer_related_events s1 = (Continue, held s1)).
Proof.
  intros s1 t0 interval.
  assert (E : last_drop_time (loc s1) = t0 /\
              next_tick s1 = ticks (hw s) (S (reads (hw s))) /\
              paused (loc s1) = paused (loc s)).
  { subst s1 t0. revert Hc.
    unfold drop_one_row_or_fix, do_attempt_drop_block_one_row, next_tick.
    destruct (attempt_drop_block_one_row (board s)) as [ok b].
    destruct ok; cbn; [repeat split|].
    unfold do_fix_block_to_board_and_add_new_block. cbn.
    destruct (fix_block_to_board_and_add_new_block b) as [[ok' cs] b'].
    destruct ok'; cbn; [repeat split|discriminate]. }
  destruct E as (L & N & P). repeat split; try assumption.
  intros W D.
  destruct (timer_related_events_cases s1) as [[_ E]|[T _]]; [exact E|].
  exfalso. unfold timer_drop_due in T. apply andb_true_iff in T.
  destruct T as [T _]. apply Z.leb_le in T. rewrite L in T.
  replace (600 - Score.get_cleared_rows (sc s1) * 30) with interval in T
    by (subst interval; lia).
  rewrite uint32_small in T by exact W. lia.
Qed.

End TimerFacts.

Lemma moves_keep_timer_witness :
  let s := toy_state (fun _ => 1500) [3] [] 500 500 0 (running 1000) 0 in
  calls (snd (loop_body s)) = [CallMove MOVE_LEFT true] /\
  last_drop_time (loc (snd (loop_body s))) = 1000.
Proof.
  intros s.
  assert (Hd : forall ok, ~ In (CallDrop ok) (new_calls s (snd (loop_body s)))).
  { intros ok H. vm_compute in H. destruct H as [H|[]]. discriminate. }
  split; [reflexivity|].
  exact (proj1 (proj2 (moves_keep_timer s Hd eq_refl))).
Defined.

Lemma soft_drop_restarts_timer_witness :
  let s := toy_state (clock_of [1700; 1750]) [] [] 500 500 0 (running 1000) 0 in
  last_drop_time (loc (snd (drop_one_row_or_fix s))) = 1700 /\
  timer_related_events (snd (drop_one_row_or_fix s))
  = (Continue, held (snd (drop_one_row_or_fix s))).
Proof.
  intros s.
  assert (Hc : fst (drop_one_row_or_fix s) = Continue) by (vm_compute; reflexivity).
  destruct (soft_drop_restarts_timer s Hc) as (L & _ & _ & T).
  split; [exact L|]. apply T; vm_compute; split; congruence.
Defined.

(** ** A new game *)

Section NewGameFacts.

Context {B : Type} `{G : Game B}.





End NewGameFacts.


(** ** The wait for the converter *)

Lemma land_one r : Z.land r 1 = if Z.testbit r 0 then 1 else 0.
Proof.
  change 1 with (Z.ones 1) at 1. rewrite Z.land_ones by lia.
  rewrite Z.bit0_odd. change (2 ^ 1) with 2.
  rewrite Zmod_odd. reflexivity.
Qed.

(** X13.  The wait of [convert_joystick] does not look at the start bit.
    Its condition [ADCSRA & (1 < ADSC)] masks the register with the truth
    value of a comparison, which is 1 for every bit number above 1, so it
    tests bit 0; and bit 0 is clear in what [initialise_hardware] writes and
    [convert_joystick] then sets.  Read back like that, with the start bit
    still set, the register makes the condition false: the loop ends at
    once, before the conversion has. *)
Theorem conversion_wait_ignores_start_bit (ADEN ADPS2 ADSC : Z)
    (Hen : 1 <= ADEN) (Hps : 1 <= ADPS2) (Hsc : 2 <= ADSC) :
  let started := start_conversion ADSC (initialise_ADCSRA ADEN ADPS2) in
  (forall r, conversion_wait ADSC r = Z.testbit r 0) /\
  Z.testbit started ADSC = true /\
  conversion_wait ADSC started = false.
Proof.
  intros started.
  assert (W : forall r, conversion_wait ADSC r = Z.testbit r 0).
  { intros r. unfold conversion_wait.
    assert (E : (1 <? ADSC) = true) by (apply Z.ltb_lt; lia).
    rewrite E, land_one. now destruct (Z.testbit r 0). }
  assert (S0 : forall k, 1 <= k -> Z.testbit (Z.shiftl 1 k) 0 = false).
  { intros k Hk. rewrite Z.shiftl_spec by lia. apply Z.testbit_neg_r. lia. }
  split; [exact W|]. split.
  - subst started. unfold start_conversion. rewrite Z.lor_spec.
    rewrite (Z.shiftl_spec 1 ADSC ADSC) by lia. rewrite Z.sub_diag.
    apply orb_true_r.
  - rewrite W. subst started. unfold start_conversion, initialise_ADCSRA.
    rewrite !Z.lor_spec, !S0 by lia. reflexivity.
Qed.

Lemma conversion_wait_ignores_start_bit_witness :
  start_conversion 6 (initialise_ADCSRA 7 2) = 196 /\
  conversion_wait 6 (start_conversion 6 (initialise_ADCSRA 7 2)) = false.
Proof.
  split; [reflexivity|].
  exact (proj2 (proj2 (conversion_wait_ignores_start_bit 7 2 6
                         ltac:(lia) ltac:(lia) ltac:(lia)))).
Defined.

(** ** Invariants of the loop *)

Lemma run_calls_app cs1 cs2 s :
  Score.run_calls (cs1 ++ cs2) s = Score.run_calls cs2 (Score.run_calls cs1 s).
Proof. unfold Score.run_calls. apply fold_left_app. Qed.

Lemma run_calls_bounds cs s :
  0 <= Score.score s < 2 ^ 32 -> 0 <= Score.cleared_rows s <= 99 ->
  0 <= Score.score (Score.run_calls cs s) < 2 ^ 32 /\
  Score.cleared_rows s <= Score.cleared_rows (Score.run_calls cs s) <= 99.
Proof.
  revert s. induction cs as [|c cs IH]; intros s Hs Hr.
  - cbn. lia.
  - rewrite run_calls_cons.
    destruct (run_call_ranges c s Hs Hr) as [Hs' Hr'].
    destruct (IH _ Hs' Hr') as [A C]. split; [exact A|].
    assert (M : Score.cleared_rows s <= Score.cleared_rows (Score.run_call c s)).
    { destruct c as [v|]; cbn [Score.run_call Score.add_to_score Score.cleared_rows];
        [lia|].
      rewrite ScoreFacts.increment_step by lia.
      destruct (Z.ltb_spec (Score.cleared_rows s) 99); lia. }
    lia.
Qed.

Section LoopInvariants.

Context {B : Type} `{G : Game B}.

(** X14.  A pass takes at most one item from the queues, and never one from
    each: a pending button is taken and the serial buffer left alone; with
    no button pending the first byte of the serial buffer is taken; with
    both queues empty nothing is.  Nothing is ever put back or added. *)
Theorem pass_takes_one_input (s : state B)
    (Hq : ~ In (-1) (button_queue (hw s))) :
  let s' := snd (loop_body s) in
  (forall b bs, button_queue (hw s) = b :: bs ->
     button_queue (hw s') = bs /\ serial_buffer (hw s') = serial_buffer (hw s)) /\
  (forall c cs, button_queue (hw s) = [] -> serial_buffer (hw s) = c :: cs ->
     button_queue (hw s') = [] /\ serial_buffer (hw s') = cs) /\
  (button_queue (hw s) = [] -> serial_buffer (hw s) = [] ->
     button_queue (hw s') = [] /\ serial_buffer (hw s') = []).
Proof.
  intros s'. destruct (loop_body_queues s) as (Lb & Ls & _).
  fold s' in Lb, Ls. rewrite Lb, Ls.
  destruct (sampled_queues s) as (Sb & Ss & _).
  split; [|split].
  - intros b bs E.
    assert (N : b <> -1) by (intros ->; apply Hq; rewrite E; now left).
    destruct (check_for_input_button (sampled s) b bs) as (_ & Qb & Qs & _);
      [congruence|assumption|]. split; congruence.
  - intros c cs Eb Es.
    destruct (check_for_input_serial (sampled s) c cs) as (_ & Qb & Qs & _);
      [congruence|congruence|]. split; assumption.
  - intros Eb Es.
    rewrite (check_for_input_idle (sampled s)) by congruence.
    cbn [snd]. split; congruence.
Qed.

Lemma scored_same (s s' : state B) : sc s' = sc s -> scored s s'.
Proof. intros E. exists []. exact E. Qed.

Lemma scored_trans (s1 s2 s3 : state B) :
  scored s1 s2 -> scored s2 s3 -> scored s1 s3.
Proof.
  intros [cs1 E1] [cs2 E2]. exists (cs1 ++ cs2).
  now rewrite run_calls_app, <- E1.
Qed.

Lemma scored_fix (s : state B) :
  scored s (snd (do_fix_block_to_board_and_add_new_block s)).
Proof.
  unfold do_fix_block_to_board_and_add_new_block.
  destruct (fix_block_to_board_and_add_new_block (board s)) as [[ok cs] b].
  exists cs. reflexivity.
Qed.

Lemma scored_drop_one_row_or_fix (s : state B) :
  scored s (snd (drop_one_row_or_fix s)).
Proof.
  unfold drop_one_row_or_fix, do_attempt_drop_block_one_row.
  destruct (attempt_drop_block_one_row (board s)) as [ok b].
  destruct ok; [apply scored_same; reflexivity|].
  match goal with |- context [do_fix_block_to_board_and_add_new_block ?x] =>
    pose proof (scored_fix x) as F;
    destruct (do_fix_block_to_board_and_add_new_block x) as [ok' s2] end.
  cbn [snd] in F.
  destruct ok'; cbn [snd]; (eapply scored_trans; [|
    first [exact F | eapply scored_trans; [exact F|apply scored_same; reflexivity]]]);
    apply scored_same; reflexivity.
Qed.

Lemma scored_drop_from_height (s : state B) :
  scored s (snd (drop_from_height s)).
Proof.
  unfold drop_from_height.
  destruct (drop_until_failure_calls (S (rows_below (board s))) s)
    as (n & _ & _ & _ & Sc & _); [lia|].
  set (s1 := drop_until_failure (S (rows_below (board s))) s) in *.
  pose proof (scored_fix s1) as F.
  destruct (do_fix_block_to_board_and_add_new_block s1) as [ok s2].
  cbn [snd] in F.
  destruct ok; cbn [snd]; (eapply scored_trans; [apply scored_same; exact Sc|exact F]).
Qed.

Lemma scored_loop_body (s : state B) : scored s (snd (loop_body s)).
Proof.
  rewrite loop_body_finish.
  set (i := fst (check_for_input (sampled s))).
  set (s1 := snd (check_for_input (sampled s))).
  pose proof (prepared_sc _ _ (prepared_checked s)) as P. fold s1 in P.
  eapply scored_trans; [apply scored_same; exact P|].
  assert (S1 : scored s1 (snd (process_input i s1))).
  { destruct (process_input_shape i s1) as (s2 & Q & Br).
    eapply scored_trans; [apply scored_same; exact (polled_sc _ _ Q)|].
    inversion Br as [H0 E|H0 E|H0 E|H0 E|H0 K E|K E|K1 K2 E]; rewrite <- ?E;
      cbn [snd].
    - apply scored_same. apply (move_same MOVE_LEFT s2).
    - apply scored_same. apply (move_same MOVE_RIGHT s2).
    - apply scored_same. apply (rotation_same s2).
    - apply scored_drop_one_row_or_fix.
    - apply scored_drop_from_height.
    - apply scored_same. unfold toggle_pause.
      destruct (paused (loc s2)); reflexivity.
    - apply scored_same. reflexivity. }
  eapply scored_trans; [exact S1|].
  destruct (process_input i s1) as [f s2]. cbn [snd].
  destruct f; cbn [finish]; [|apply scored_same; reflexivity].
  destruct (timer_related_events_cases s2) as [[_ E]|[_ E]]; rewrite E.
  - apply scored_same. reflexivity.
  - eapply scored_trans; [|apply scored_drop_one_row_or_fix].
    apply scored_same. reflexivity.
Qed.

Lemma scored_game_loop n (s : state B) : scored s (snd (game_loop n s)).
Proof.
  revert s. induction n as [|n IH]; intros s; [apply scored_same; reflexivity|].
  cbn [game_loop]. pose proof (scored_loop_body s) as L.
  destruct (loop_body s) as [f s1]. cbn [snd] in L.
  destruct f; [|exact L]. eapply scored_trans; [exact L|apply IH].
Qed.

(** X15.  However long the game is played and whatever the game module
    does with the score module's functions, the cleared-rows count stays
    between 0 and 99 and never goes down, and the score stays a 32-bit
    value; so the interval of the drop timer never grows during a game and
    is never below [600 - 30 * 99]. *)
Theorem cleared_rows_bounded_in_play (n : nat) (s : state B)
    (Hs : 0 <= Score.get_score (sc s) < 2 ^ 32)
    (Hr : 0 <= Score.get_cleared_rows (sc s) <= 99) :
  let s' := snd (game_loop n s) in
  Score.get_cleared_rows (sc s) <= Score.get_cleared_rows (sc s') <= 99 /\
  0 <= Score.get_score (sc s') < 2 ^ 32 /\
  -2370 <= 600 - Score.get_cleared_rows (sc s') * 30
        <= 600 - Score.get_cleared_rows (sc s) * 30.
Proof.
  intros s'. destruct (scored_game_loop n s) as [cs E]. fold s' in E.
  unfold Score.get_cleared_rows, Score.get_score in *. rewrite E.
  destruct (run_calls_bounds cs (sc s) Hs Hr) as [A C]. lia.
Qed.

Lemma escape_sequence_step_counter n c :
  n = 0 \/ n = 1 \/ n = 2 ->
  fst (fst (escape_sequence_step n c)) = 0 \/
  fst (fst (escape_sequence_step n c)) = 1 \/
  fst (fst (escape_sequence_step n c)) = 2.
Proof.
  intros [E|[E|E]]; subst n; unfold escape_sequence_step.
  - destruct (c =? ESCAPE_CHAR); cbn; auto.
  - change (1 =? 0) with false. change (1 =? 1) with true.
    change (1 =? 2) with false. cbn [andb].
    destruct (c =? chr "["); cbn; auto.
  - cbn. auto.
Qed.

Lemma counter_loop_body (s : state B) :
  let n := characters_into_escape_sequence (loc s) in
  let n' := characters_into_escape_sequence (loc (snd (loop_body s))) in
  (n = 0 \/ n = 1 \/ n = 2) -> (n' = 0 \/ n' = 1 \/ n' = 2).
Proof.
  intros n n' Hn. subst n n'. destruct (loop_body_queues s) as (_ & _ & Lc).
  rewrite Lc. destruct (sampled_queues s) as (_ & _ & Sc).
  unfold check_for_input, button_pushed, serial_input_available, fgetc_stdin.
  destruct (button_queue (hw (sampled s))) as [|b bs].
  - change (-1 =? -1) with true. cbv iota.
    destruct (serial_buffer (hw (sampled s))) as [|c cs]; cbn [snd];
      [rewrite Sc; exact Hn|].
    cbn [hw set_hw loc].
    pose proof (escape_sequence_step_counter
                  (characters_into_escape_sequence (loc (sampled s)))
                  (to_char c)) as E.
    rewrite Sc in E. specialize (E Hn). rewrite Sc.
    destruct (escape_sequence_step _ _) as [[m si] e]. exact E.
  - destruct (b =? -1); cbn [snd]; [|rewrite <- Sc in Hn; exact Hn].
    cbn [hw set_hw serial_buffer loc].
    destruct (serial_buffer (hw (sampled s))) as [|c cs]; cbn [snd];
      [rewrite <- Sc in Hn; exact Hn|].
    cbn [hw set_hw loc].
    pose proof (escape_sequence_step_counter
                  (characters_into_escape_sequence (loc (sampled s)))
                  (to_char c)) as E.
    rewrite Sc in E. specialize (E Hn). rewrite Sc.
    destruct (escape_sequence_step _ _) as [[m si] e]. exact E.
Qed.

Lemma counter_game_loop k (s : state B) :
  let n := characters_into_escape_sequence (loc s) in
  let n' := characters_into_escape_sequence (loc (snd (game_loop k s))) in
  (n = 0 \/ n = 1 \/ n = 2) -> (n' = 0 \/ n' = 1 \/ n' = 2).
Proof.
  revert s. induction k as [|k IH]; intros s n n' Hn; [exact Hn|].
  subst n'. cbn [game_loop]. pose proof (counter_loop_body s Hn) as L.
  destruct (loop_body s) as [f s1]. cbn [snd] in L.
  destruct f; [|exact L]. apply IH. exact L.
Qed.

(** X16.  From the start of [play_game] to its end, after any number of
    passes and whatever arrives on the serial line,
    [characters_into_escape_sequence] is 0, 1 or 2. *)
Theorem escape_counter_in_play (k : nat) (s : state B) :
  let n := characters_into_escape_sequence (loc (snd (play_game k s))) in
  n = 0 \/ n = 1 \/ n = 2.
Proof.
  unfold play_game. cbn [get_clock_ticks].
  apply counter_game_loop. left. reflexivity.
Qed.

End LoopInvariants.

Lemma pass_takes_one_input_witness :
  let s := toy_state (fun _ => 1000) [2; 3] [chr "p"] 500 500 0 (running 1000) 0 in
  button_queue (hw (snd (loop_body s))) = [3] /\
  serial_buffer (hw (snd (loop_body s))) = [chr "p"].
Proof.
  intros s.
  assert (Hq : ~ In (-1) (button_queue (hw s))).
  { cbn. intros [H|[H|[]]]; discriminate. }
  exact (proj1 (pass_takes_one_input s Hq) 2 [3] eq_refl).
Defined.

Lemma cleared_rows_bounded_in_play_witness :
  let s := toy_state (fun _ => 1000) [1; 1; 1] [] 500 500 0 (running 1000) 98 in
  98 <= Score.get_cleared_rows (sc (snd (game_loop 3 s))) <= 99.
Proof.
  intros s.
  exact (proj1 (cleared_rows_bounded_in_play 3 s ltac:(cbn; lia) ltac:(cbn; lia))).
Defined.

(** ** A key and a tilt in the same pass *)

Section LostKeyFacts.

Context {B : Type} `{G : Game B}.

(** X17.  A key can be lost to the joystick.  In a running game with no
    button pending and the decoder idle, a plain byte (a space, a 'p', any
    byte but ESC) that is read in a pass in which the stick is beyond 850
    with the debounce window elapsed is taken from the buffer and then not
    acted on: acting on the input makes the one call
    [attempt_move(MOVE_LEFT)], the game is not paused and no drop from
    height is made, and the byte is gone. *)
Theorem tilt_swallows_key (s : state B) (c : Z) (rest : list Z)
    (Hp : paused (loc s) = false)
    (Hb : button_queue (hw s) = [])
    (Hs : serial_buffer (hw s) = c :: rest)
    (Hc : characters_into_escape_sequence (loc s) = 0)
    (Hk : to_char c <> ESCAPE_CHAR)
    (Hx : 850 < stick_x (joy (sampled s)))
    (Hw : uint32 (joystick_time (joy s) + 150) < next_tick s) :
  let i := fst (check_for_input (sampled s)) in
  let s1 := snd (check_for_input (sampled s)) in
  i = mkInput (-1) (to_char c) (-1) /\
  serial_buffer (hw s1) = rest /\
  process_input i s1 = (Continue, snd (do_attempt_move MOVE_LEFT (fired s1))) /\
  calls (snd (process_input i s1))
  = calls s ++ [CallMove MOVE_LEFT (fst (attempt_move MOVE_LEFT (board s)))] /\
  paused (loc (snd (process_input i s1))) = false /\
  serial_buffer (hw (snd (loop_body s))) = rest.
Proof.
  intros i s1.
  destruct (check_for_input_serial (sampled s) c rest Hb Hs) as (I & _ & Qs & _).
  change (characters_into_escape_sequence (loc (sampled s)))
    with (characters_into_escape_sequence (loc s)) in I.
  rewrite Hc, (step_plain _ Hk) in I. cbn [fst snd] in I.
  fold i in I. fold s1 in Qs.
  pose proof (prepared_checked s) as P. fold s1 in P.
  destruct (check_for_input_prepared (sampled s)) as [_ J]. fold s1 in J.
  assert (Hp1 : paused (loc s1) = false) by (now rewrite (prepared_paused _ _ P)).
  assert (E : process_input i s1
              = (Continue, snd (do_attempt_move MOVE_LEFT (fired s1)))).
  { unfold process_input. rewrite I.
    cbn [button escape_sequence_char]. absent_input. cbn [orb or_else].
    rewrite is_left_gate, J.
    replace (850 <? stick_x (joy (sampled s))) with true
      by (symmetry; apply Z.ltb_lt; exact Hx).
    rewrite gate_fires.
    - assert (Hpf : paused (loc (fired s1)) = false) by exact Hp1.
      rewrite Hpf. cbn [andb negb].
      now destruct (do_attempt_move MOVE_LEFT (fired s1)).
    - unfold next_tick.
      rewrite (prepared_time _ _ P), (prepared_ticks _ _ P), (prepared_reads _ _ P).
      exact Hw. }
  destruct (move_same MOVE_LEFT (fired s1)) as (_ & _ & _ & Ml & Mc).
  destruct (loop_body_queues s) as (_ & Ls & _). fold s1 in Ls.
  repeat split.
  - exact I.
  - exact Qs.
  - exact E.
  - rewrite E. cbn [snd]. rewrite Mc.
    change (calls (fired s1)) with (calls s1).
    change (board (fired s1)) with (board s1).
    rewrite (prepared_calls _ _ P), (prepared_board _ _ P). reflexivity.
  - rewrite E. cbn [snd]. rewrite Ml. exact Hp1.
  - rewrite Ls. exact Qs.
Qed.

End LostKeyFacts.

Lemma tilt_swallows_key_witness :
  let s := toy_state (fun _ => 1000) [] [chr "p"; chr " "] 900 500 0
                     (running 1000) 0 in
  calls (snd (loop_body s)) = [CallMove MOVE_LEFT true] /\
  paused (loc (snd (loop_body s))) = false /\
  serial_buffer (hw (snd (loop_body s))) = [chr " "].
Proof.
  intros s.
  destruct (tilt_swallows_key s (chr "p") [chr " "] eq_refl eq_refl eq_refl
              eq_refl ltac:(vm_compute; discriminate) eq_refl eq_refl)
    as (_ & _ & _ & _ & _ & R).
  split; [reflexivity|]. split; [reflexivity|exact R].
Defined.
